(** * Mind Gym: the phase pipeline and its somatic governor

    A shallow embedding of [mind_gym_mvp.py] and the properties of its
    specification.

    Conventions of the embedding.
    - Python floats are idealised as exact rationals ([Q]); the literals
      [0.9], [0.1], [1.1], [0.05], [0.02] ... are the fractions they denote.
      Equality of float values is [Qeq] ([==]).
    - Python strings are [string]s of 8-bit characters (ASCII texts).
    - The language backend ([client.messages.create]), [random.choice] and
      the clock ([time.time]) are operations on an abstract environment.
    - The asynchronous generator [MindGym.think] is a computation that
      returns its result (or the exception that left it), the final state
      and the history of what it did, in order: generation calls, state
      updates and yielded events.  A run is followed to its end: the
      consumer takes every event.  [print] and [asyncio.sleep] have no
      effect on any of these and are left out; of the command line only
      the bars it prints under the events are modelled. *)

From Stdlib Require Import ZArith QArith Qminmax Lqa.
From Stdlib Require Import List String Ascii Bool Arith Lia.
Import ListNotations.

Local Open Scope string_scope.
Local Open Scope list_scope.

(** ** Python string primitives *)

Module PyStr.

(** [c.lower()] on an ASCII character. *)
Definition lower_char (c : ascii) : ascii :=
  let n := nat_of_ascii c in
  if (65 <=? n)%nat && (n <=? 90)%nat then ascii_of_nat (n + 32) else c.

(** [s.lower()] *)
Fixpoint lower (s : string) : string :=
  match s with
  | EmptyString => EmptyString
  | String c s' => String (lower_char c) (lower s')
  end.

(** [needle in hay] *)
Fixpoint contains (needle hay : string) : bool :=
  prefix needle hay ||
  match hay with
  | EmptyString => false
  | String _ hay' => contains needle hay'
  end.

(** [s[n:]] *)
Fixpoint drop (n : nat) (s : string) : string :=
  match n, s with
  | O, _ => s
  | S _, EmptyString => EmptyString
  | S k, String _ s' => drop k s'
  end.

(** [s.split(sep)] for a non-empty separator: the text is scanned from the
    left; at an occurrence of [sep] the current piece is closed and the
    scan resumes after the occurrence ([skip] counts the characters of the
    occurrence still to be passed over). *)
Fixpoint split_go (sep : string) (skip : nat) (cur s : string) : list string :=
  match s with
  | EmptyString => [cur]
  | String c s' =>
      match skip with
      | S k => split_go sep k cur s'
      | O =>
          if prefix sep s
          then cur :: split_go sep (String.length sep - 1) EmptyString s'
          else split_go sep 0 (cur ++ String c EmptyString) s'
      end
  end.

Definition split (sep s : string) : list string := split_go sep 0 EmptyString s.

(** [s.replace(old, new)] for a non-empty [old]: occurrences are found from
    the left and do not overlap. *)
Fixpoint replace_go (old new : string) (skip : nat) (s : string) : string :=
  match s with
  | EmptyString => EmptyString
  | String c s' =>
      match skip with
      | S k => replace_go old new k s'
      | O =>
          if prefix old s
          then new ++ replace_go old new (String.length old - 1) s'
          else String c (replace_go old new 0 s')
      end
  end.

Definition replace (old new s : string) : string := replace_go old new 0 s.

(** The ASCII characters [str.isspace] accepts. *)
Definition is_space (c : ascii) : bool :=
  let n := nat_of_ascii c in
  ((9 <=? n)%nat && (n <=? 13)%nat) || ((28 <=? n)%nat && (n <=? 32)%nat).

Fixpoint lstrip (s : string) : string :=
  match s with
  | EmptyString => EmptyString
  | String c s' => if is_space c then lstrip s' else s
  end.

Fixpoint rstrip (s : string) : string :=
  match s with
  | EmptyString => EmptyString
  | String c s' =>
      match rstrip s' with
      | EmptyString => if is_space c then EmptyString else String c EmptyString
      | r => String c r
      end
  end.

(** [s.strip()] *)
Definition strip (s : string) : string := rstrip (lstrip s).

End PyStr.

(** ** Somatic state (the emotional governor), lines 24-53 *)

Local Open Scope Q_scope.

(** [x < y] on floats, as a test. *)
Definition Qltb (x y : Q) : bool :=
  match x ?= y with Lt => true | _ => false end.

(** Python's [min(a, b)]: [b] when [b < a], else [a]. *)
Definition py_min (a b : Q) : Q := if Qltb b a then b else a.

Record SomaticState : Type := mkSomatic {
  arousal : Q;     (* 0=calm, 1=activated *)
  valence : Q;     (* -1=negative, +1=positive *)
  coherence : Q;   (* 0=confused, 1=clear *)
  tension : Q      (* 0=relaxed, 1=strained *)
}.

(** [SomaticState()] *)
Definition SomaticState_default : SomaticState :=
  {| arousal := 1 # 2; valence := 0; coherence := 1 # 2; tension := 0 |}.

Definition set_arousal (self : SomaticState) (x : Q) : SomaticState :=
  {| arousal := x; valence := valence self;
     coherence := coherence self; tension := tension self |}.

Definition set_coherence (self : SomaticState) (x : Q) : SomaticState :=
  {| arousal := arousal self; valence := valence self;
     coherence := x; tension := tension self |}.

Definition set_tension (self : SomaticState) (x : Q) : SomaticState :=
  {| arousal := arousal self; valence := valence self;
     coherence := coherence self; tension := x |}.

(** [stress_level], line 35. *)
Definition stress_level (self : SomaticState) : Q :=
  (arousal self * (1 - valence self) / 2) * (1 - coherence self).

Definition mentions_confusion (thought : string) : bool :=
  PyStr.contains "confused" (PyStr.lower thought)
  || PyStr.contains "uncertain" (PyStr.lower thought).

Definition mentions_clarity (thought : string) : bool :=
  PyStr.contains "clear" (PyStr.lower thought)
  || PyStr.contains "understand" (PyStr.lower thought).

Definition has_exclamation (thought : string) : bool :=
  PyStr.contains "!" thought.

(** [update_from_thought], lines 37-49: the three heuristics in the order of
    the source, then the unconditional tension increment. *)
Definition update_from_thought (self : SomaticState) (thought : string)
  : SomaticState :=
  let self :=
    if mentions_confusion thought
    then set_arousal (set_coherence self (coherence self * (9 # 10)))
                     (arousal self + (1 # 10))
    else self in
  let self :=
    if mentions_clarity thought
    then set_coherence self (py_min 1 (coherence self * (11 # 10)))
    else self in
  let self :=
    if has_exclamation thought
    then set_arousal self (py_min 1 (arousal self + (1 # 20)))
    else self in
  set_tension self (py_min 1 (tension self + (1 # 50))).

(** [needs_rest], line 53. *)
Definition needs_rest (self : SomaticState) : bool :=
  Qltb (8 # 10) (stress_level self) || Qltb (9 # 10) (tension self).

(** The state after a sequence of [update_from_thought] calls. *)
Definition updates (self : SomaticState) (thoughts : list string)
  : SomaticState :=
  fold_left update_from_thought thoughts self.

(** What every sequence of updates keeps: valence, coherence and tension
    stay in their ranges and arousal stays non-negative. *)
Definition kept_bounds (s : SomaticState) : Prop :=
  0 <= arousal s /\
  -1 <= valence s <= 1 /\
  0 <= coherence s <= 1 /\
  0 <= tension s <= 1.

(** ** Data of the pipeline *)

(** A dialogue entry, the dict [{"speaker": ..., "content": ...}]. *)
Record Exchange : Type := mkExchange {
  speaker : string;
  content : string
}.

(** The prompts are f-string templates; a prompt is kept as its template
    together with the values interpolated into it, in the order they occur
    in the text. *)
Inductive Prompt : Type :=
| IntuitivePrompt (query : string) (thought_no burst_size : nat)
| AnalyticalPrompt (query : string) (intuitive_thoughts : list string)
| DialoguePrompt (query intuitive_said analytical_said : string)
                 (round_no rounds : nat)
| SynthesisPrompt (query : string) (intuitive : list string)
                  (analytical : string) (dialogue : list Exchange)
                  (stress coh tens : Q).

(** The arguments of [client.messages.create]. *)
Record Request : Type := mkRequest {
  model : string;
  max_tokens : nat;
  temperature : Q;
  prompt : Prompt
}.

(** What a generation call does: it returns [response.content[0].text] or
    raises. *)
Inductive Response : Type :=
| Text (text : string)
| Failure (reason : string).

Inductive exn : Type :=
| GenerationError (reason : string)
| IndexError.

Inductive Phase : Type :=
| intuitive | analytical | dialogue | synthesis | complete.

(** The dicts [MindGym.think] yields. *)
Inductive Event : Type :=
| Starting (phase : Phase)
| IntuitiveThought (thought : string) (stress coh : Q)
| AnalyticalThought (thought : string) (stress tens : Q)
| DialogueThought (speaker thought : string) (coh : Q)
| Complete (synthesis_text : string) (elapsed stress_final coherence_final : Q)
           (rest : bool).

(** What a run does, in the order it does it. *)
Inductive Action : Type :=
| AReset (s : SomaticState)
| AGenerate (req : Request) (resp : Response)
| AUpdate (thought : string) (after : SomaticState)
| AYield (e : Event).

(** The collaborators outside the core: whether a client is configured
    (the global [client] is not [None]), the backend call, the random
    source and the clock, over an environment of their own. *)
Record Backend : Type := mkBackend {
  Env : Type;
  client : bool;
  messages_create : Env -> Request -> Response * Env;
  random_choice : Env -> nat * Env;
  time_time : Env -> Q
}.

(** ** The computations *)

Record State (B : Backend) : Type := mkState {
  somatic : SomaticState;   (* self.somatic *)
  env : Env B
}.

Arguments mkState {B}.
Arguments somatic {B}.
Arguments env {B}.

(** What running a computation gives: its value or the exception that left
    it, the state it ends in and the history of its actions. *)
Record Out (B : Backend) (A : Type) : Type := mkOut {
  result : exn + A;
  final : State B;
  history : list Action
}.

Arguments mkOut {B A}.
Arguments result {B A}.
Arguments final {B A}.
Arguments history {B A}.

Section Pipeline.

Variable B : Backend.

Definition M (A : Type) : Type := State B -> Out B A.

Definition ret {A} (a : A) : M A :=
  fun st => mkOut (inr a) st [].

Definition raise {A} (e : exn) : M A :=
  fun st => mkOut (inl e) st [].

Definition bind {A C} (m : M A) (f : A -> M C) : M C :=
  fun st =>
    let o := m st in
    match result o with
    | inl e => mkOut (inl e) (final o) (history o)
    | inr a =>
        let o' := f a (final o) in
        mkOut (result o') (final o') (history o ++ history o')
    end.

Notation "x <- m ;; k" := (bind m (fun x => k))
  (at level 61, m at next level, right associativity).
Notation "m ;;; k" := (bind m (fun _ => k))
  (at level 61, right associativity).

Definition lift {A} (r : exn + A) : M A :=
  fun st => mkOut r st [].

Definition get_somatic : M SomaticState :=
  fun st => mkOut (inr (somatic st)) st [].

(** [self.somatic = SomaticState()] *)
Definition reset_somatic : M unit :=
  fun st => mkOut (inr tt) (mkState SomaticState_default (env st))
                  [AReset SomaticState_default].

(** [self.somatic.update_from_thought(thought)] *)
Definition somatic_update (thought : string) : M unit :=
  fun st =>
    let s' := update_from_thought (somatic st) thought in
    mkOut (inr tt) (mkState s' (env st)) [AUpdate thought s'].

(** [self.somatic.stress_level()] *)
Definition somatic_stress_level : M Q :=
  fun st => mkOut (inr (stress_level (somatic st))) st [].

(** [yield e] *)
Definition yield (e : Event) : M unit :=
  fun st => mkOut (inr tt) st [AYield e].

(** [client.messages.create(...)] followed by [.content[0].text] *)
Definition create (req : Request) : M string :=
  fun st =>
    let (resp, env') := messages_create B (env st) req in
    let st' := mkState (somatic st) env' in
    match resp with
    | Text t => mkOut (inr t) st' [AGenerate req resp]
    | Failure reason =>
        mkOut (inl (GenerationError reason)) st' [AGenerate req resp]
    end.

(** [random.choice(options)] *)
Definition choice (options : list string) : M string :=
  fun st =>
    let (r, env') := random_choice B (env st) in
    match nth_error options (r mod List.length options) with
    | Some x => mkOut (inr x) (mkState (somatic st) env') []
    | None => mkOut (inl IndexError) (mkState (somatic st) env') []
    end.

(** [time.time()] *)
Definition now : M Q :=
  fun st => mkOut (inr (time_time B (env st))) st [].

(** [for x in xs: acc = body(x, acc)], the loops of the source with the
    list they build. *)
Fixpoint for_each {A C} (xs : list A) (body : A -> C -> M C) (acc : C) : M C :=
  match xs with
  | [] => ret acc
  | x :: xs' => acc' <- body x acc ;; for_each xs' body acc'
  end.

(** [xs[i]] and [xs[-1]] *)
Definition index {A} (xs : list A) (i : nat) : exn + A :=
  match nth_error xs i with
  | Some x => inr x
  | None => inl IndexError
  end.

Definition index_last {A} (xs : list A) : exn + A :=
  match rev xs with
  | x :: _ => inr x
  | [] => inl IndexError
  end.

(** [xs[-2:]] *)
Definition last_two {A} (xs : list A) : list A :=
  skipn (List.length xs - 2) xs.

(** *** IntuitiveMind.think, lines 59-94

    The argument [somatic] of the two minds is the object the orchestrator
    holds in [self.somatic]; the computations read it from the state. *)

Definition burst_size_of (s : SomaticState) : nat :=
  if Qltb (stress_level s) (1 # 2) then 3%nat else 2%nat.

Definition associations (query : string) : list string :=
  [ "Pattern: " ++ query ++ " reminds me of flowing water...";
    "Feeling: There's something rhythmic about " ++ query;
    "Image: Like a spiral unfolding from " ++ query;
    "Instinct: " ++ query ++ " wants to become something else" ]%string.

Definition intuitive_request (query : string) (i burst_size : nat) : Request :=
  {| model := "claude-3-haiku-20240307";
     max_tokens := 100;
     temperature := 9 # 10;
     prompt := IntuitivePrompt query (i + 1) burst_size |}.

Definition IntuitiveMind_think (query : string) : M (list string) :=
  stress <- somatic_stress_level ;;
  let burst_size := if Qltb stress (1 # 2) then 3%nat else 2%nat in
  for_each (seq 0 burst_size)
    (fun i thoughts =>
       if client B
       then text <- create (intuitive_request query i burst_size) ;;
            ret (thoughts ++ [text])
       else text <- choice (associations query) ;;
            ret (thoughts ++ [text]))
    [].

(** *** AnalyticalMind.think, lines 99-122 *)

Definition analytical_request (query : string) (intuitive_thoughts : list string)
    (stress : Q) : Request :=
  {| model := "claude-3-5-sonnet-20241022";
     max_tokens := 200;
     temperature := if Qltb (7 # 10) stress then 3 # 10 else 1 # 2;
     prompt := AnalyticalPrompt query intuitive_thoughts |}.

Definition mock_analysis (query : string) : string :=
  ("Analyzing '" ++ query ++ "': The intuitive insights suggest patterns of transformation and flow. Logically, this indicates a system in transition, seeking equilibrium through dynamic adjustment.")%string.

Definition AnalyticalMind_think (query : string)
    (intuitive_thoughts : list string) : M string :=
  if client B
  then stress <- somatic_stress_level ;;
       create (analytical_request query intuitive_thoughts stress)
  else ret (mock_analysis query).

(** *** DialogueNode.converse, lines 128-175 *)

Definition dialogue_request (query intuitive_said analytical_said : string)
    (round_num rounds : nat) : Request :=
  {| model := "claude-3-haiku-20240307";
     max_tokens := 150;
     temperature := 6 # 10;
     prompt := DialoguePrompt query intuitive_said analytical_said
                              (round_num + 1) rounds |}.

(** Lines 156-165: the entries one generated round adds to the dialogue. *)
Definition parse_round (text : string) : exn + list Exchange :=
  if PyStr.contains "INTUITIVE:" text && PyStr.contains "ANALYTICAL:" text
  then
    let parts := PyStr.split "ANALYTICAL:" text in
    match index parts 0 with
    | inl e => inl e
    | inr part0 =>
        let intuitive_part := PyStr.strip (PyStr.replace "INTUITIVE:" "" part0) in
        match (if (1 <? List.length parts)%nat
               then match index parts 1 with
                    | inl e => inl e
                    | inr part1 => inr (PyStr.strip part1)
                    end
               else inr EmptyString) with
        | inl e => inl e
        | inr analytical_part =>
            inr [ mkExchange "intuitive" intuitive_part;
                  mkExchange "analytical" analytical_part ]
        end
    end
  else inr [ mkExchange "dialogue" text ].

Definition mock_round (query : string) : list Exchange :=
  [ mkExchange "intuitive" ("But what if " ++ query ++ " is more fluid than that?");
    mkExchange "analytical" "Fluidity implies structure at a different scale." ]%string.

Definition converse (intuitive_thoughts : list string)
    (analytical_thought query : string) (rounds : nat) : M (list Exchange) :=
  for_each (seq 0 rounds)
    (fun round_num dialogue =>
       if client B
       then
         intuitive_said <- lift (index_last intuitive_thoughts) ;;
         analytical_said <-
           (if (round_num =? 0)%nat then ret analytical_thought
            else last <- lift (index_last dialogue) ;; ret (content last)) ;;
         text <- create (dialogue_request query intuitive_said analytical_said
                                          round_num rounds) ;;
         entries <- lift (parse_round text) ;;
         ret (dialogue ++ entries)
       else ret (dialogue ++ mock_round query))
    [].

(** *** synthesize, lines 178-211 *)

Definition synthesis_request (query : string) (intuitive : list string)
    (analytical : string) (dialogue : list Exchange) (s : SomaticState)
  : Request :=
  {| model := "claude-3-5-sonnet-20241022";
     max_tokens := 200;
     temperature := 4 # 10;
     prompt := SynthesisPrompt query intuitive analytical (last_two dialogue)
                 (stress_level s) (coherence s) (tension s) |}.

Definition mock_synthesis (query : string) : string :=
  ("Synthesis: Both the flowing, intuitive sense of " ++ query ++ " and its structural analysis reveal a dynamic system seeking balance through continuous adaptation.")%string.

Definition synthesize (query : string) (intuitive : list string)
    (analytical : string) (dialogue : list Exchange) : M string :=
  if client B
  then s <- get_somatic ;;
       create (synthesis_request query intuitive analytical dialogue s)
  else ret (mock_synthesis query).

(** *** MindGym.think, lines 224-294 *)

(** Phase 1, lines 232-245. *)
Definition think_intuitive_phase (query : string) : M (list string) :=
  yield (Starting intuitive) ;;;
  intuitive_thoughts <- IntuitiveMind_think query ;;
  for_each intuitive_thoughts
    (fun thought _ =>
       somatic_update thought ;;;
       s <- get_somatic ;;
       yield (IntuitiveThought thought (stress_level s) (coherence s)))
    tt ;;;
  ret intuitive_thoughts.

(** Phase 2, lines 247-259. *)
Definition think_analytical_phase (query : string)
    (intuitive_thoughts : list string) : M string :=
  yield (Starting analytical) ;;;
  analytical_thought <- AnalyticalMind_think query intuitive_thoughts ;;
  somatic_update analytical_thought ;;;
  s <- get_somatic ;;
  yield (AnalyticalThought analytical_thought (stress_level s) (tension s)) ;;;
  ret analytical_thought.

Definition dialogue_rounds_of (s : SomaticState) : nat :=
  if Qltb (7 # 10) (stress_level s) then 1%nat else 2%nat.

(** Phase 3, lines 261-275. *)
Definition think_dialogue_phase (query : string)
    (intuitive_thoughts : list string) (analytical_thought : string)
  : M (list Exchange) :=
  yield (Starting dialogue) ;;;
  stress <- somatic_stress_level ;;
  let dialogue_rounds := if Qltb (7 # 10) stress then 1%nat else 2%nat in
  dialogue <- converse intuitive_thoughts analytical_thought query
                       dialogue_rounds ;;
  for_each dialogue
    (fun exchange _ =>
       somatic_update (content exchange) ;;;
       s <- get_somatic ;;
       yield (DialogueThought (speaker exchange) (content exchange)
                              (coherence s)))
    tt ;;;
  ret dialogue.

(** Phase 4, lines 277-294. *)
Definition think_synthesis_phase (query : string)
    (intuitive_thoughts : list string) (analytical_thought : string)
    (dialogue : list Exchange) (start_time : Q) : M unit :=
  yield (Starting synthesis) ;;;
  synthesis_text <- synthesize query intuitive_thoughts analytical_thought
                               dialogue ;;
  t <- now ;;
  let elapsed := t - start_time in
  s <- get_somatic ;;
  yield (Complete synthesis_text elapsed (stress_level s) (coherence s)
                  (needs_rest s)).

Definition MindGym_think (query : string) : M unit :=
  start_time <- now ;;
  reset_somatic ;;;
  intuitive_thoughts <- think_intuitive_phase query ;;
  analytical_thought <- think_analytical_phase query intuitive_thoughts ;;
  dialogue <- think_dialogue_phase query intuitive_thoughts
                                   analytical_thought ;;
  think_synthesis_phase query intuitive_thoughts analytical_thought
                        dialogue start_time.

(** The state phase 1 is entered in: the state after the reset. *)
Definition entry (st : State B) : State B :=
  mkState SomaticState_default (env st).

(** Phases 1-3 in sequence, with what they hand to phase 4: the part of
    [MindGym.think] between the reset and the synthesis. *)
Definition think_phases_1_to_3 (query : string)
  : M (list string * string * list Exchange) :=
  intuitive_thoughts <- think_intuitive_phase query ;;
  analytical_thought <- think_analytical_phase query intuitive_thoughts ;;
  dialogue <- think_dialogue_phase query intuitive_thoughts
                                   analytical_thought ;;
  ret (intuitive_thoughts, analytical_thought, dialogue).

(** The part of [MindGym.think] before phase 3, lines 226-259, with what
    it hands on; the state it ends in is the state phase 3 is entered in. *)
Definition think_until_dialogue (query : string)
  : M (Q * list string * string) :=
  start_time <- now ;;
  reset_somatic ;;;
  intuitive_thoughts <- think_intuitive_phase query ;;
  analytical_thought <- think_analytical_phase query intuitive_thoughts ;;
  ret (start_time, intuitive_thoughts, analytical_thought).

(** A computation that only generates: it leaves the somatic state alone
    and its history has generation calls only. *)
Definition generator {A} (m : M A) : Prop :=
  forall st,
    somatic (final (m st)) = somatic st /\
    forall a, In a (history (m st)) ->
      match a with AGenerate _ _ => True | _ => False end.

(** A computation that does not raise [IndexError]. *)
Definition in_range {A} (m : M A) : Prop :=
  forall st, result (m st) <> inl IndexError.

(** The events a consumer of the generator receives. *)
Definition events (h : list Action) : list Event :=
  flat_map (fun a => match a with AYield e => [e] | _ => [] end) h.

End Pipeline.

(** ** The runs as paths of a transition system

    What phases 1-3 may do from a somatic state, one block at a time: the
    history the block adds, whether it raises, and the state it leaves. *)

Definition raised {A} (r : exn + A) : option exn :=
  match r with
  | inl e => Some e
  | inr _ => None
  end.

(** The sampling temperature of the analytical request, line 116. *)
Definition analytical_temperature (s : SomaticState) : Q :=
  if Qltb (7 # 10) (stress_level s) then 3 # 10 else 1 # 2.

(** A request of phases 1-3 whose state-dependent inputs are read from [s]. *)
Definition early_request (s : SomaticState) (req : Request) : Prop :=
  match prompt req with
  | IntuitivePrompt _ _ _ => True
  | DialoguePrompt _ _ _ _ _ => True
  | AnalyticalPrompt _ _ => temperature req = analytical_temperature s
  | SynthesisPrompt _ _ _ _ _ _ _ => False
  end.

(** The event of an artifact of phases 1-3 with text [t], its snapshot read
    from [s]. *)
Inductive artifact_event (t : string) (s : SomaticState) : Event -> Prop :=
| ae_intuitive :
    artifact_event t s (IntuitiveThought t (stress_level s) (coherence s))
| ae_analytical :
    artifact_event t s (AnalyticalThought t (stress_level s) (tension s))
| ae_dialogue sp :
    artifact_event t s (DialogueThought sp t (coherence s)).

(** One block of a run of phases 1-3, from a somatic state: the reset, a
    phase marker, a generation call that answers or fails, an [IndexError],
    or the update on an artifact followed by its event. *)
Inductive block : SomaticState -> list Action -> option exn -> SomaticState -> Prop :=
| b_reset s :
    block s [AReset SomaticState_default] None SomaticState_default
| b_starting s ph :
    ph <> synthesis -> ph <> complete ->
    block s [AYield (Starting ph)] None s
| b_generated s req t :
    early_request s req ->
    block s [AGenerate req (Text t)] None s
| b_failed s req reason :
    early_request s req ->
    block s [AGenerate req (Failure reason)] (Some (GenerationError reason)) s
| b_index_error s :
    block s [] (Some IndexError) s
| b_artifact s t e :
    artifact_event t (update_from_thought s t) e ->
    block s [AUpdate t (update_from_thought s t); AYield e] None
          (update_from_thought s t).

(** A path: blocks in sequence, ended by the first one that raises. *)
Inductive steps : SomaticState -> list Action -> option exn -> SomaticState -> Prop :=
| steps_done s :
    steps s [] None s
| steps_more s1 h1 s2 h2 r s3 :
    block s1 h1 None s2 -> steps s2 h2 r s3 -> steps s1 (h1 ++ h2) r s3
| steps_abort s h e s' :
    block s h (Some e) s' -> steps s h (Some e) s'.

(** A computation all of whose runs are such paths. *)
Definition sound {B A} (m : M B A) : Prop :=
  forall st,
    steps (somatic st) (history (m st)) (raised (result (m st)))
          (somatic (final (m st))).

(** The somatic state a history leaves, replayed from its updates. *)
Definition replay_action (s : SomaticState) (a : Action) : SomaticState :=
  match a with
  | AReset s0 => s0
  | AUpdate t _ => update_from_thought s t
  | _ => s
  end.

Definition replay (s : SomaticState) (h : list Action) : SomaticState :=
  fold_left replay_action h s.

(** A history in which no generation call failed. *)
Definition is_failure (a : Action) : bool :=
  match a with
  | AGenerate _ (Failure _) => true
  | _ => false
  end.

Definition clean (h : list Action) : Prop :=
  forall a, In a h -> is_failure a = false.

(** The synthesis request, whose prompt carries the state it is built in. *)
Definition late_request (s : SomaticState) (req : Request) : Prop :=
  match prompt req with
  | SynthesisPrompt _ _ _ _ st c t =>
      st = stress_level s /\ c = coherence s /\ t = tension s
  | _ => False
  end.

(** How a run of [MindGym.think] ends: an exception in phases 1-3, an
    exception of the synthesis call, or the [complete] event with the
    metrics of the final state. *)
Inductive think_outcome (s0 : SomaticState)
  : list Action -> exn + unit -> SomaticState -> Prop :=
| to_early_failure h e s :
    steps s0 h (Some e) s ->
    think_outcome s0 h (inl e) s
| to_synthesis_failure h s req reason :
    steps s0 h None s ->
    late_request s req ->
    think_outcome s0
      (h ++ [AYield (Starting synthesis); AGenerate req (Failure reason)])
      (inl (GenerationError reason)) s
| to_complete h s gen syn elapsed :
    steps s0 h None s ->
    gen = [] \/ (exists req, late_request s req /\
                            gen = [AGenerate req (Text syn)]) ->
    think_outcome s0
      (h ++ [AYield (Starting synthesis)] ++ gen ++
         [AYield (Complete syn elapsed (stress_level s) (coherence s)
                           (needs_rest s))])
      (inr tt) s.

(** The text of an artifact event of phases 1-3. *)
Definition event_text (e : Event) : option string :=
  match e with
  | IntuitiveThought t _ _ => Some t
  | AnalyticalThought t _ _ => Some t
  | DialogueThought _ t _ => Some t
  | _ => None
  end.

(** The last action of [pre], or [prev] when [pre] is empty. *)
Definition last_action (prev : option Action) (pre : list Action)
  : option Action :=
  fold_left (fun _ a => Some a) pre prev.

(** A history that is consistent with the state it is replayed from [s]:
    every artifact event comes right after the update on its text and
    shows the updated state, every logged state is the replayed one, and
    every request with state-dependent inputs reads the replayed state. *)
Fixpoint consistent (s : SomaticState) (prev : option Action)
    (h : list Action) : Prop :=
  match h with
  | [] => True
  | a :: h' =>
      match a with
      | AYield e =>
          forall t, event_text e = Some t ->
            prev = Some (AUpdate t s) /\ artifact_event t s e
      | AUpdate t after => after = update_from_thought s t
      | AGenerate req _ => early_request s req \/ late_request s req
      | AReset _ => True
      end /\
      consistent (replay_action s a) (Some a) h'
  end.

(** Events and requests of the synthesis phase. *)
Definition is_late (a : Action) : bool :=
  match a with
  | AYield (Starting synthesis) => true
  | AYield (Complete _ _ _ _ _) => true
  | AGenerate req _ =>
      match prompt req with
      | SynthesisPrompt _ _ _ _ _ _ _ => true
      | _ => false
      end
  | _ => false
  end.

(** The states a history logs. *)
Definition logged_state (a : Action) : option SomaticState :=
  match a with
  | AReset s => Some s
  | AUpdate _ s => Some s
  | _ => None
  end.

(** The generation calls of a history. *)
Definition generations (h : list Action) : list (Request * Response) :=
  flat_map (fun a => match a with
                     | AGenerate req resp => [(req, resp)]
                     | _ => []
                     end) h.

(** Whether, along a history, the update on every generated artifact of
    phases 1-3 is applied before the next such artifact is generated:
    [pending] says that an artifact has been generated since the last
    update. *)
Fixpoint updated_before_next (pending : bool) (h : list Action) : bool :=
  match h with
  | [] => true
  | a :: h' =>
      match a with
      | AUpdate _ _ => updated_before_next false h'
      | AGenerate _ (Text _) =>
          if is_late a then updated_before_next pending h'
          else negb pending && updated_before_next true h'
      | _ => updated_before_next pending h'
      end
  end.

(** What a request announces to the backend: an intuitive prompt the size
    of the burst, a dialogue prompt the number of rounds. *)
Definition announces (burst rounds : nat) (req : Request) : Prop :=
  match prompt req with
  | IntuitivePrompt _ _ n => n = burst
  | DialoguePrompt _ _ _ _ n => n = rounds
  | _ => True
  end.

(** ** A scripted backend

    The backend answers the generation calls with the responses of a
    script, in order, and fails once the script is exhausted;
    [random.choice] picks the first option and the clock stands still. *)

Definition scripted (use_client : bool) : Backend :=
  {| Env := list Response;
     client := use_client;
     messages_create := fun e _ =>
       match e with
       | r :: e' => (r, e')
       | [] => (Failure "script exhausted", [])
       end;
     random_choice := fun e => (0%nat, e);
     time_time := fun _ => 0 |}.

Definition scripted_start (use_client : bool) (script : list Response)
  : State (scripted use_client) :=
  mkState (B := scripted use_client) SomaticState_default script.

(** The events the loop over the artifacts [xs] yields from the state [s]:
    each artifact is shown with the state updated on its text. *)
Fixpoint emitted {X} (text : X -> string) (mk : X -> SomaticState -> Event)
    (s : SomaticState) (xs : list X) : list Event :=
  match xs with
  | [] => []
  | x :: xs' =>
      let s' := update_from_thought s (text x) in
      mk x s' :: emitted text mk s' xs'
  end.

(** The events of a run that completes with the fragments [ts], the
    analysis [a], the dialogue [dlg] and the synthesis [syn]. *)
Definition completed_events (ts : list string) (a : string)
    (dlg : list Exchange) (syn : string) (elapsed : Q) : list Event :=
  let s1 := updates SomaticState_default ts in
  let s2 := update_from_thought s1 a in
  let s3 := updates s2 (map content dlg) in
  Starting intuitive ::
  emitted (fun t => t)
          (fun t s => IntuitiveThought t (stress_level s) (coherence s))
          SomaticState_default ts ++
  [Starting analytical; AnalyticalThought a (stress_level s2) (tension s2);
   Starting dialogue] ++
  emitted content
          (fun x s => DialogueThought (speaker x) (content x) (coherence s))
          s2 dlg ++
  [Starting synthesis;
   Complete syn elapsed (stress_level s3) (coherence s3) (needs_rest s3)].

(** The speakers an entry of the dialogue can have. *)
Definition known_speaker (x : Exchange) : Prop :=
  speaker x = "intuitive"%string \/ speaker x = "analytical"%string \/
  speaker x = "dialogue"%string.

(** A computation that makes at most [n] generation calls. *)
Definition calls_at_most {B A} (n : nat) (m : M B A) : Prop :=
  forall st, (List.length (generations (history (m st))) <= n)%nat.

(** The generation calls of a run with a client that completes with the
    fragments [ts], the analysis [a], the texts [x1] and [x2] of the two
    dialogue rounds, parsed into the entries [e1] and [e2], and the
    synthesis [syn]: what each request is built from. *)
Definition completed_calls (q : string) (ts : list string) (a x1 x2 : string)
    (e1 e2 : list Exchange) (syn : string) : list (Request * Response) :=
  let s1 := updates SomaticState_default ts in
  let s3 := updates (update_from_thought s1 a) (map content (e1 ++ e2)) in
  let said := last ts EmptyString in
  combine (map (fun i => intuitive_request q i 3) (seq 0 3)) (map Text ts) ++
  [ (analytical_request q ts (stress_level s1), Text a);
    (dialogue_request q said a 0 2, Text x1);
    (dialogue_request q said
       (content (last e1 (mkExchange EmptyString EmptyString))) 1 2, Text x2);
    (synthesis_request q ts a (e1 ++ e2) s3, Text syn) ].

(** The model and sampling parameters of the requests of a run, by kind
    of prompt. *)
Definition run_parameters (req : Request) : Prop :=
  match prompt req with
  | IntuitivePrompt _ _ _ =>
      model req = "claude-3-haiku-20240307"%string /\
      max_tokens req = 100%nat /\ temperature req = 9 # 10
  | AnalyticalPrompt _ _ =>
      model req = "claude-3-5-sonnet-20241022"%string /\
      max_tokens req = 200%nat /\ temperature req = 1 # 2
  | DialoguePrompt _ _ _ _ _ =>
      model req = "claude-3-haiku-20240307"%string /\
      max_tokens req = 150%nat /\ temperature req = 6 # 10
  | SynthesisPrompt _ _ _ _ _ _ _ =>
      model req = "claude-3-5-sonnet-20241022"%string /\
      max_tokens req = 200%nat /\ temperature req = 4 # 10
  end.

(** The events of a run that stops at a failed call of the phase [ph]:
    those of the phases before it and the marker of [ph]. *)
Definition failed_events (ph : Phase) (ts : list string) (a : string)
    (dlg : list Exchange) : list Event :=
  let s2 := update_from_thought (updates SomaticState_default ts) a in
  let phase1 :=
    Starting intuitive ::
    emitted (fun t => t)
            (fun t s => IntuitiveThought t (stress_level s) (coherence s))
            SomaticState_default ts in
  let phase2 :=
    [Starting analytical; AnalyticalThought a (stress_level s2) (tension s2)] in
  let phase3 :=
    Starting dialogue ::
    emitted content
            (fun x s => DialogueThought (speaker x) (content x) (coherence s))
            s2 dlg in
  match ph with
  | intuitive => [Starting intuitive]
  | analytical => phase1 ++ [Starting analytical]
  | dialogue => phase1 ++ phase2 ++ [Starting dialogue]
  | synthesis => phase1 ++ phase2 ++ phase3 ++ [Starting synthesis]
  | complete => []
  end.

(** ** The bars of the command line, lines 330 and 334

    [int(x)] on a float truncates towards zero, and a character times [n]
    is a string of [n] cells, empty when [n] is negative. *)
Definition py_int (x : Q) : Z := Z.quot (Qnum x) (Zpos (Qden x)).

(** The number of cells of the bar, a block character times [int(x * 10)]. *)
Definition bar_cells (x : Q) : nat := Z.to_nat (py_int (x * 10)).

(** The bar [main] prints under an event: the stress bar under an
    intuitive thought, the tension bar under the analysis. *)
Definition printed_bar (e : Event) : option nat :=
  match e with
  | IntuitiveThought _ stress _ => Some (bar_cells stress)
  | AnalyticalThought _ _ tens => Some (bar_cells tens)
  | _ => None
  end.

(** What holds of the bar under every event of a run: at most four
    cells, and none under the analysis, whose tension is 0.08. *)
Definition short_bar (e : Event) : Prop :=
  forall n, printed_bar e = Some n ->
    (n <= 4)%nat /\
    (forall t stress tens, e = AnalyticalThought t stress tens ->
     tens == 2 # 25 /\ n = 0%nat).

(** The run of the scenario of the specification: three fragments ["A"],
    then the analytical call fails. *)
Definition failing_script : list Response :=
  [Text "A"; Text "A"; Text "A"; Failure "overloaded"].

Definition failing_run : Out (scripted true) unit :=
  MindGym_think (scripted true) "What is happiness?"
    (scripted_start true failing_script).

(** The same run with an answer to every call. *)
Definition completed_script : list Response :=
  [Text "A"; Text "A"; Text "A"; Text "An analysis.";
   Text "INTUITIVE: yes ANALYTICAL: no"; Text "silence";
   Text "A synthesis."].

Definition completed_run : Out (scripted true) unit :=
  MindGym_think (scripted true) "What is happiness?"
    (scripted_start true completed_script).

(** * Properties *)

(** ** Comparisons and [min] *)

Lemma Qltb_lt x y : Qltb x y = true <-> x < y.
Proof.
  unfold Qltb. rewrite Qlt_alt.
  destruct (x ?= y); split; congruence.
Qed.

Lemma Qltb_ge x y : Qltb x y = false <-> y <= x.
Proof.
  split; intros H.
  - apply Qnot_lt_le. intros L. apply Qltb_lt in L. congruence.
  - destruct (Qltb x y) eqn:E; trivial. apply Qltb_lt in E. lra.
Qed.

Lemma py_min_spec a b :
  (b < a /\ py_min a b = b) \/ (a <= b /\ py_min a b = a).
Proof.
  unfold py_min. destruct (Qltb b a) eqn:E.
  - left. split; trivial. now apply Qltb_lt.
  - right. split; trivial. now apply Qltb_ge.
Qed.

(** [py_min] is the minimum of the rationals. *)
Lemma py_min_Qmin a b : py_min a b == Qmin a b.
Proof.
  destruct (py_min_spec a b) as [[H ->] | [H ->]].
  - symmetry. apply Q.min_r. lra.
  - symmetry. now apply Q.min_l.
Qed.

Ltac case_min :=
  repeat match goal with
  | |- context [py_min ?a ?b] =>
      let H := fresh "Hmin" in
      let E := fresh "Emin" in
      destruct (py_min_spec a b) as [[H E] | [H E]]; rewrite E in *; clear E
  end.

(** Case analysis on the three content tests of [update_from_thought]. *)
Ltac case_update t :=
  unfold update_from_thought;
  destruct (mentions_confusion t), (mentions_clarity t), (has_exclamation t);
  cbn.

(** ** The somatic state *)

Lemma update_valence s t :
  valence (update_from_thought s t) = valence s.
Proof. case_update t; reflexivity. Qed.

Lemma update_tension s t :
  tension (update_from_thought s t) = py_min 1 (tension s + (1 # 50)).
Proof. case_update t; reflexivity. Qed.

Lemma update_tension_bounds s t :
  0 <= tension s <= 1 -> 0 <= tension (update_from_thought s t) <= 1.
Proof. rewrite update_tension. intros [? ?]. case_min; split; lra. Qed.

Lemma update_coherence_bounds s t :
  0 <= coherence s <= 1 -> 0 <= coherence (update_from_thought s t) <= 1.
Proof. case_update t; intros [? ?]; case_min; split; lra. Qed.

Lemma update_arousal_lower s t :
  0 <= arousal s -> 0 <= arousal (update_from_thought s t).
Proof. case_update t; intros ?; case_min; lra. Qed.

(** One call raises arousal by at most 0.15, and to at most 1 when the text
    has an exclamation mark. *)
Lemma update_arousal_upper s t :
  arousal (update_from_thought s t) <= arousal s + (3 # 20).
Proof. case_update t; case_min; lra. Qed.

Lemma update_arousal_step s t :
  arousal s <= 19 # 20 ->
  arousal (update_from_thought s t) <= 21 # 20.
Proof. case_update t; intros ?; case_min; lra. Qed.

(** One call lowers coherence to no less than nine tenths of it. *)
Lemma update_coherence_lower s t :
  0 <= coherence s <= 1 ->
  coherence s * (9 # 10) <= coherence (update_from_thought s t).
Proof. case_update t; intros [? ?]; case_min; lra. Qed.

Lemma updates_snoc s ts t :
  updates s (ts ++ [t]) = update_from_thought (updates s ts) t.
Proof. unfold updates. now rewrite fold_left_app. Qed.

Lemma updates_app s ts ts' :
  updates s (ts ++ ts') = updates (updates s ts) ts'.
Proof. unfold updates. now rewrite fold_left_app. Qed.

Lemma updates_valence s ts : valence (updates s ts) = valence s.
Proof.
  revert s. induction ts as [|t ts IH]; intros s; cbn; trivial.
  unfold updates in IH. now rewrite IH, update_valence.
Qed.

Lemma kept_bounds_default : kept_bounds SomaticState_default.
Proof. unfold kept_bounds; cbn; repeat split; lra. Qed.

Lemma kept_bounds_update s t :
  kept_bounds s -> kept_bounds (update_from_thought s t).
Proof.
  intros (Ha & Hv & Hc & Ht). unfold kept_bounds.
  rewrite update_valence.
  auto using update_arousal_lower, update_coherence_bounds,
    update_tension_bounds.
Qed.

Lemma kept_bounds_updates s ts :
  kept_bounds s -> kept_bounds (updates s ts).
Proof.
  revert s. induction ts as [|t ts IH]; intros s H; cbn; trivial.
  apply IH. now apply kept_bounds_update.
Qed.

(** C1, at the failing input: six thoughts that each mention confusion,
    from the default state.  The confusion branch adds 0.1 to arousal
    without clamping (line 42), so arousal ends at 1.1, above its documented
    bound of 1. *)
Theorem C1_arousal_exceeds_bound :
  let s := updates SomaticState_default
             ["confused"; "confused"; "confused";
              "confused"; "confused"; "confused"]%string in
  arousal s == 11 # 10 /\ ~ arousal s <= 1.
Proof.
  cbv zeta. split.
  - vm_compute. reflexivity.
  - vm_compute. intros H. now apply H.
Qed.

(** C4: along every sequence of updates from the default state, a call
    sets tension to [min(1.0, tension + 0.02)] whatever the text is, and
    tension never decreases; below the clamp the increase is exactly
    0.02. *)
Theorem C4_tension_monotone (ts : list string) (t : string) :
  let s := updates SomaticState_default ts in
  let s' := update_from_thought s t in
  tension s' = py_min 1 (tension s + (1 # 50)) /\
  tension s <= tension s' /\
  (tension s + (1 # 50) <= 1 -> tension s' == tension s + (1 # 50)).
Proof.
  cbv zeta.
  destruct (kept_bounds_updates SomaticState_default ts kept_bounds_default)
    as (_ & _ & _ & Ht).
  rewrite update_tension. split; [reflexivity|].
  split; [|intros ?]; case_min; lra.
Qed.

Lemma C4_tension_monotone_witness :
  tension (update_from_thought SomaticState_default "A") == 1 # 50.
Proof.
  refine (proj2 (proj2 (C4_tension_monotone [] "A")) _).
  cbn. lra.
Defined.

(** ** Strings *)

Module PyStrFacts.
Import PyStr.

Local Open Scope string_scope.

Lemma append_nil_r (s : string) : s ++ "" = s.
Proof. induction s as [|c s IH]; cbn; congruence. Qed.

Lemma append_assoc (a b c : string) : (a ++ b) ++ c = a ++ (b ++ c).
Proof. induction a as [|x a IH]; cbn; congruence. Qed.

Lemma prefix_append (p s x : string) :
  prefix p s = true -> prefix p (s ++ x) = true.
Proof.
  revert s. induction p as [|c p IH]; intros s H.
  - now destruct (s ++ x).
  - destruct s as [|d s]; cbn in *; [discriminate|].
    destruct (ascii_dec c d); [auto|discriminate].
Qed.

Lemma prefix_self_append (p x : string) : prefix p (p ++ x) = true.
Proof.
  induction p as [|c p IH]; cbn.
  - now destruct x.
  - destruct (ascii_dec c c); [exact IH|congruence].
Qed.

Lemma prefix_drop (p s : string) :
  prefix p s = true -> s = p ++ drop (String.length p) s.
Proof.
  revert s. induction p as [|c p IH]; intros s H; [reflexivity|].
  destruct s as [|d s]; cbn in *; [discriminate|].
  destruct (ascii_dec c d) as [->|]; [|discriminate].
  f_equal. now apply IH.
Qed.

Lemma contains_nil_false (sep : string) :
  sep <> "" -> contains sep "" = false.
Proof. destruct sep; [congruence|reflexivity]. Qed.

(** Passing over [k] characters is dropping them. *)
Lemma split_go_skip sep k cur s :
  split_go sep k cur s = split_go sep 0 cur (drop k s).
Proof.
  revert k. induction s as [|c s IH]; intros [|k]; try reflexivity.
  cbn [drop]. rewrite <- IH. reflexivity.
Qed.

(** Without an occurrence of the separator there is one piece. *)
Lemma split_go_none sep s :
  contains sep s = false -> forall cur, split_go sep 0 cur s = [cur ++ s].
Proof.
  induction s as [|c s IH]; intros H cur.
  - cbn. now rewrite append_nil_r.
  - cbn [contains] in H. apply orb_false_iff in H as [Hp Hc].
    cbn [split_go]. rewrite Hp, (IH Hc).
    now rewrite append_assoc.
Qed.

(** With one, the first piece ends where the separator first occurs and
    the scan goes on behind it. *)
Lemma split_go_first sep s :
  sep <> "" -> contains sep s = true ->
  forall cur, exists a b,
    s = a ++ sep ++ b /\
    contains sep a = false /\
    split_go sep 0 cur s = (cur ++ a) :: split_go sep 0 "" b.
Proof.
  intros Hne. induction s as [|c s IH]; intros H cur.
  - now rewrite contains_nil_false in H.
  - cbn [contains] in H. destruct (prefix sep (String c s)) eqn:Hp.
    + exists "", (drop (String.length sep) (String c s)).
      split; [now apply prefix_drop|].
      split; [now apply contains_nil_false|].
      cbn [split_go]. rewrite Hp, append_nil_r, split_go_skip.
      destruct sep as [|d sep]; [congruence|].
      cbn. now rewrite Nat.sub_0_r.
    + cbn in H. destruct (IH H (cur ++ String c "")) as (a & b & -> & Ha & E).
      exists (String c a), b. split; [reflexivity|]. split.
      * cbn [contains]. rewrite Ha, orb_false_r.
        destruct (prefix sep (String c a)) eqn:Hp'; trivial.
        apply (prefix_append _ _ (sep ++ b)) in Hp'.
        cbn in Hp', Hp. congruence.
      * cbn [split_go]. rewrite Hp, E. now rewrite append_assoc.
Qed.

Lemma drop_append (p s : string) : drop (String.length p) (p ++ s) = s.
Proof. induction p as [|c p IH]; cbn; [now destruct s|exact IH]. Qed.

Lemma split_go_at_sep sep b cur :
  sep <> "" ->
  split_go sep 0 cur (sep ++ b) = cur :: split_go sep 0 "" b.
Proof.
  intros Hne. destruct sep as [|c sep]; [congruence|].
  pose proof (prefix_self_append (String c sep) b) as P.
  cbn [append] in *. cbn [split_go]. rewrite P, split_go_skip.
  cbn [String.length]. now rewrite Nat.sub_succ, Nat.sub_0_r, drop_append.
Qed.

Lemma split_go_nonempty sep k cur s :
  exists p ps, split_go sep k cur s = p :: ps.
Proof.
  revert k cur. induction s as [|c s IH]; intros k cur; cbn [split_go].
  - eauto.
  - destruct k as [|k]; [|apply IH].
    destruct (prefix sep (String c s)); [eauto|apply IH].
Qed.

(** The first two pieces of a text that has the separator. *)
Lemma split_two sep s :
  sep <> "" -> contains sep s = true ->
  exists before between rest ps,
    s = before ++ sep ++ between ++ rest /\
    contains sep before = false /\
    contains sep between = false /\
    (rest = "" \/ prefix sep rest = true) /\
    split sep s = before :: between :: ps.
Proof.
  intros Hne H. unfold split.
  destruct (split_go_first sep s Hne H "") as (a & b & -> & Ha & E).
  cbn in E. rewrite E.
  destruct (contains sep b) eqn:Hb.
  - destruct (split_go_first sep b Hne Hb "") as (a2 & b2 & -> & Ha2 & E2).
    cbn in E2. rewrite E2.
    destruct (split_go_nonempty sep 0 "" b2) as (p & ps & Eps).
    exists a, a2, (sep ++ b2), (p :: ps). rewrite Eps.
    repeat split; trivial. right. apply prefix_self_append.
  - rewrite (split_go_none sep b Hb). cbn.
    exists a, b, "", []. rewrite append_nil_r. auto 6.
Qed.

(** Replacing where nothing occurs changes nothing. *)
Lemma replace_go_none old new s :
  contains old s = false -> replace_go old new 0 s = s.
Proof.
  induction s as [|c s IH]; intros H; [reflexivity|].
  cbn [contains] in H. apply orb_false_iff in H as [Hp Hc].
  cbn [replace_go]. now rewrite Hp, (IH Hc).
Qed.

Lemma replace_go_skip old new k s :
  replace_go old new k s = replace_go old new 0 (drop k s).
Proof.
  revert k. induction s as [|c s IH]; intros [|k]; try reflexivity.
  cbn [drop]. rewrite <- IH. reflexivity.
Qed.

Lemma prefix_cons c p d s :
  prefix (String c p) (String d s) = if ascii_dec c d then prefix p s else false.
Proof. reflexivity. Qed.

(** One character of a prefix test in [H]: the characters agree, or [H] is
    absurd. *)
Ltac prefix_step H :=
  cbn [append] in H; rewrite prefix_cons in H;
  match type of H with
  | context [ascii_dec ?x ?y] =>
      let E := fresh "E" in
      destruct (ascii_dec x y) as [E | E];
      [ first [discriminate E | subst] | discriminate H ]
  end.

Ltac unborder H a :=
  prefix_step H;
  lazymatch type of H with
  | prefix EmptyString _ = true => idtac
  | _ => destruct a as [|? a]; [ repeat prefix_step H | unborder H a ]
  end.

(** The tag ["ANALYTICAL:"] has no proper prefix that is also its suffix:
    an occurrence that starts inside [a] in [a ++ tag ++ b] lies within
    [a]. *)
Lemma analytical_tag_unbordered (a b : string) :
  prefix "ANALYTICAL:" (a ++ "ANALYTICAL:" ++ b) = true ->
  a = "" \/ prefix "ANALYTICAL:" a = true.
Proof.
  intros H. destruct a as [|c a]; [now left|right].
  unborder H a.
  repeat (rewrite prefix_cons; destruct (ascii_dec _ _); [|congruence]).
  now destruct a.
Qed.

(** A text in the format the prompt asks for splits at its tag. *)
Lemma split_at_analytical_tag (a b : string) :
  contains "ANALYTICAL:" a = false ->
  forall cur,
    split_go "ANALYTICAL:" 0 cur (a ++ "ANALYTICAL:" ++ b) =
    (cur ++ a) :: split_go "ANALYTICAL:" 0 "" b.
Proof.
  induction a as [|c a IH]; intros H cur.
  - rewrite append_nil_r.
    change ("" ++ "ANALYTICAL:" ++ b) with ("ANALYTICAL:" ++ b).
    apply split_go_at_sep. discriminate.
  - cbn [contains] in H. apply orb_false_iff in H as [Hp Hc].
    change (String c a ++ "ANALYTICAL:" ++ b)
      with (String c (a ++ "ANALYTICAL:" ++ b)).
    cbn [split_go].
    destruct (prefix "ANALYTICAL:" (String c (a ++ "ANALYTICAL:" ++ b)))
      eqn:Hp'.
    + apply (analytical_tag_unbordered (String c a) b) in Hp'.
      destruct Hp'; congruence.
    + rewrite (IH Hc). now rewrite append_assoc.
Qed.

Lemma replace_go_at old new s :
  old <> "" ->
  replace_go old new 0 (old ++ s) = new ++ replace_go old new 0 s.
Proof.
  intros Hne. destruct old as [|c old]; [congruence|].
  pose proof (prefix_self_append (String c old) s) as P.
  cbn [append] in *. cbn [replace_go]. rewrite P, replace_go_skip.
  cbn [String.length]. now rewrite Nat.sub_succ, Nat.sub_0_r, drop_append.
Qed.

Lemma contains_prefix sep s : prefix sep s = true -> contains sep s = true.
Proof. intros H. destruct s; cbn [contains]; now rewrite H. Qed.

Lemma contains_append sep x y : contains sep (x ++ sep ++ y) = true.
Proof.
  induction x as [|c x IH].
  - change ("" ++ sep ++ y) with (sep ++ y).
    apply contains_prefix, prefix_self_append.
  - change (String c x ++ sep ++ y) with (String c (x ++ sep ++ y)).
    cbn [contains]. rewrite IH. apply orb_true_r.
Qed.

(** No occurrence of ["ANALYTICAL:"] starts inside ["INTUITIVE:"]. *)
Lemma intuitive_tag_then (a : string) :
  contains "ANALYTICAL:" a = false ->
  contains "ANALYTICAL:" ("INTUITIVE:" ++ a) = false.
Proof.
  intros H. cbn [append].
  repeat (cbn [contains]; rewrite prefix_cons;
          destruct (ascii_dec _ _) as [E|_]; [discriminate E|];
          cbn [orb]).
  exact H.
Qed.

End PyStrFacts.

(** ** One round of the dialogue *)

Section ParseRound.
Import PyStr PyStrFacts.
Local Open Scope string_scope.

Lemma parse_round_untagged text :
  contains "INTUITIVE:" text && contains "ANALYTICAL:" text = false ->
  parse_round text = inr [mkExchange "dialogue" text].
Proof. intros H. unfold parse_round. now rewrite H. Qed.

Lemma parse_round_tagged text :
  contains "INTUITIVE:" text = true ->
  contains "ANALYTICAL:" text = true ->
  exists before between rest,
    text = before ++ "ANALYTICAL:" ++ between ++ rest /\
    contains "ANALYTICAL:" before = false /\
    contains "ANALYTICAL:" between = false /\
    (rest = "" \/ prefix "ANALYTICAL:" rest = true) /\
    parse_round text =
      inr [ mkExchange "intuitive" (strip (replace "INTUITIVE:" "" before));
            mkExchange "analytical" (strip between) ].
Proof.
  intros HI HA.
  destruct (split_two "ANALYTICAL:" text ltac:(discriminate) HA)
    as (before & between & rest & ps & E & Hb & Hm & Hr & Es).
  exists before, between, rest. repeat split; trivial.
  unfold parse_round. rewrite HI, HA, Es. reflexivity.
Qed.

(** A round never raises and adds one or two entries. *)
Lemma parse_round_total text :
  exists entries,
    parse_round text = inr entries /\
    (List.length entries = 1 \/ List.length entries = 2)%nat.
Proof.
  destruct (contains "INTUITIVE:" text) eqn:HI;
    [destruct (contains "ANALYTICAL:" text) eqn:HA|].
  - destruct (parse_round_tagged text HI HA) as (? & ? & ? & _ & _ & _ & _ & E).
    rewrite E. eauto.
  - rewrite parse_round_untagged by now rewrite HI, HA. eauto.
  - rewrite parse_round_untagged by now rewrite HI. eauto.
Qed.

Lemma parse_round_canonical a b :
  contains "INTUITIVE:" a = false ->
  contains "ANALYTICAL:" a = false ->
  contains "ANALYTICAL:" b = false ->
  parse_round ("INTUITIVE:" ++ a ++ "ANALYTICAL:" ++ b) =
    inr [ mkExchange "intuitive" (strip a); mkExchange "analytical" (strip b) ].
Proof.
  intros HIa HAa HAb. unfold parse_round.
  rewrite (contains_prefix _ _ (prefix_self_append "INTUITIVE:" _)).
  rewrite <- append_assoc, contains_append. cbn [andb].
  unfold split.
  rewrite (split_at_analytical_tag _ b (intuitive_tag_then a HAa)).
  rewrite (split_go_none _ b HAb). cbn [index nth_error List.length Nat.ltb Nat.leb].
  unfold replace. cbn [append].
  change (String "I" (String "N" (String "T" (String "U" (String "I"
            (String "T" (String "I" (String "V" (String "E" (String ":" a))))))))))
    with ("INTUITIVE:" ++ a).
  rewrite replace_go_at by discriminate.
  now rewrite (replace_go_none _ _ a HIa).
Qed.

End ParseRound.


(** ** What the paths of the transition system have in common *)

Lemma replay_app s h1 h2 : replay s (h1 ++ h2) = replay (replay s h1) h2.
Proof. unfold replay. apply fold_left_app. Qed.

Lemma last_action_app prev h1 h2 :
  last_action prev (h1 ++ h2) = last_action (last_action prev h1) h2.
Proof. unfold last_action. apply fold_left_app. Qed.

Lemma consistent_app s prev h1 h2 :
  consistent s prev h1 ->
  consistent (replay s h1) (last_action prev h1) h2 ->
  consistent s prev (h1 ++ h2).
Proof.
  revert s prev. induction h1 as [|a h1 IH]; intros s prev H1 H2; cbn in *.
  - exact H2.
  - destruct H1 as [Ha H1]. split; [exact Ha|]. now apply IH.
Qed.

(** A block leaves the state its history replays to, and is consistent
    whatever came before it. *)
Lemma block_consistent s h r s' :
  block s h r s' -> s' = replay s h /\ forall prev, consistent s prev h.
Proof.
  intros H. destruct H; (split; [reflexivity|]); intros prev; cbn;
    repeat split; auto; try discriminate.
  all: match goal with
       | Ht : event_text _ = Some _, Hev : artifact_event _ _ _ |- _ =>
           destruct Hev; cbn in Ht; injection Ht as <-; trivial; constructor
       end.
Qed.

Lemma steps_consistent s h r s' :
  steps s h r s' -> s' = replay s h /\ forall prev, consistent s prev h.
Proof.
  induction 1 as [s | s1 h1 s2 h2 r s3 Hb Hs [IH1 IH2] | s h e s' Hb].
  - split; [reflexivity|]. intros; exact I.
  - destruct (block_consistent _ _ _ _ Hb) as [E Hc]. subst s2.
    split; [now rewrite replay_app|].
    intros prev. apply consistent_app; auto.
  - eapply block_consistent; eassumption.
Qed.

(** What consistency says at a position of the history. *)
Lemma consistent_at s prev pre a post :
  consistent s prev (pre ++ a :: post) ->
  match a with
  | AYield e =>
      forall t, event_text e = Some t ->
        last_action prev pre = Some (AUpdate t (replay s pre)) /\
        artifact_event t (replay s pre) e
  | AUpdate t after => after = update_from_thought (replay s pre) t
  | AGenerate req _ =>
      early_request (replay s pre) req \/ late_request (replay s pre) req
  | AReset _ => True
  end.
Proof.
  revert s prev. induction pre as [|b pre IH]; intros s prev H.
  - cbn in H. destruct H as [H _]. exact H.
  - cbn [app consistent] in H. destruct H as [_ H].
    apply IH in H. exact H.
Qed.

Lemma last_action_snoc prev pre a :
  last_action prev pre = Some a ->
  (pre = [] /\ prev = Some a) \/ exists pre', pre = pre' ++ [a].
Proof.
  destruct pre as [|b pre] using rev_ind; cbn.
  - auto.
  - rewrite last_action_app. cbn. intros [= ->]. eauto.
Qed.

Lemma clean_nil : clean [].
Proof. intros a []. Qed.

Lemma clean_app h1 h2 : clean h1 -> clean h2 -> clean (h1 ++ h2).
Proof. intros H1 H2 a Ha. apply in_app_or in Ha as []; auto. Qed.

Lemma block_clean s h s' : block s h None s' -> clean h.
Proof.
  intros H a Ha. inversion H; subst; cbn in Ha;
    repeat destruct Ha as [<- | Ha]; trivial; contradiction.
Qed.

Lemma steps_clean s h s' : steps s h None s' -> clean h.
Proof.
  intros H. remember None as r eqn:E.
  induction H as [s | s1 h1 s2 h2 r s3 Hb Hs IH | s h e s' Hb].
  - apply clean_nil.
  - apply clean_app; auto. eapply block_clean; eauto.
  - discriminate.
Qed.

(** A path that raises stops at the failed generation call, unless it
    raises [IndexError]. *)
Lemma steps_failure s h e s' :
  steps s h (Some e) s' ->
  (e = IndexError /\ clean h) \/
  (exists h' req reason,
     e = GenerationError reason /\
     h = h' ++ [AGenerate req (Failure reason)] /\ clean h').
Proof.
  intros H. remember (Some e) as r eqn:E.
  induction H as [s | s1 h1 s2 h2 r s3 Hb Hs IH | s h e' s' Hb].
  - discriminate.
  - pose proof (block_clean _ _ _ Hb) as Hc.
    destruct (IH E) as [[-> Hc2] | (h' & req & reason & -> & -> & Hc2)].
    + left. split; trivial. now apply clean_app.
    + right. exists (h1 ++ h'), req, reason.
      rewrite app_assoc. repeat split; trivial. now apply clean_app.
  - injection E as ->. inversion Hb; subst.
    + right. exists [], req, reason. repeat split. apply clean_nil.
    + left. split; trivial. apply clean_nil.
Qed.

(** Phases 1-3 yield no event and issue no request of the synthesis
    phase. *)
Lemma steps_early s h r s' :
  steps s h r s' -> forall a, In a h -> is_late a = false.
Proof.
  assert (Hblock : forall s h r s', block s h r s' ->
                     forall a, In a h -> is_late a = false).
  { intros ? ? ? ? H a Ha. destruct H; cbn in Ha;
      repeat destruct Ha as [<- | Ha]; try contradiction; cbn; trivial.
    - destruct ph; congruence.
    - unfold early_request in H. destruct (prompt req); tauto.
    - unfold early_request in H. destruct (prompt req); tauto.
    - now destruct H. }
  induction 1 as [s | s1 h1 s2 h2 r s3 Hb Hs IH | s h e s' Hb]; intros a Ha.
  - contradiction.
  - apply in_app_or in Ha as [Ha|Ha]; eauto.
  - eauto.
Qed.

(** Valence stays at zero along a path. *)
Lemma steps_valence s h r s' :
  steps s h r s' -> valence s = 0 ->
  valence s' = 0 /\
  forall a st, In a h -> logged_state a = Some st -> valence st = 0.
Proof.
  assert (Hblock : forall s h r s', block s h r s' -> valence s = 0 ->
            valence s' = 0 /\
            forall a st, In a h -> logged_state a = Some st -> valence st = 0).
  { intros ? ? ? ? H Hv. destruct H; (split; [|intros a st Ha Hl]);
      rewrite ?update_valence; trivial; cbn in Ha;
      repeat destruct Ha as [<- | Ha]; try contradiction; cbn in Hl;
      try discriminate; injection Hl as <-; trivial.
    now rewrite update_valence. }
  induction 1 as [s | s1 h1 s2 h2 r s3 Hb Hs IH | s h e s' Hb]; intros Hv.
  - split; trivial. intros a st [].
  - destruct (Hblock _ _ _ _ Hb Hv) as [Hv2 H1].
    destruct (IH Hv2) as [Hv3 H2]. split; trivial.
    intros a st Ha. apply in_app_or in Ha as [Ha|Ha]; eauto.
  - eauto.
Qed.

(** ** The state phase 3 is entered in *)

(** After four updates from the default state, whatever the texts: valence
    is still 0, coherence is at least 0.5 * 0.9^4, arousal at most 1.05,
    so the stress level is at most 0.7 and two dialogue rounds are chosen. *)
Lemma after_four_updates t1 t2 t3 t4 :
  let s := updates SomaticState_default [t1; t2; t3; t4] in
  valence s = 0 /\
  6561 # 20000 <= coherence s /\
  arousal s <= 21 # 20 /\
  stress_level s <= 7 # 10 /\
  dialogue_rounds_of s = 2%nat.
Proof.
  cbv zeta.
  set (s0 := SomaticState_default).
  set (s1 := update_from_thought s0 t1).
  set (s2 := update_from_thought s1 t2).
  set (s3 := update_from_thought s2 t3).
  change (updates s0 [t1; t2; t3; t4]) with (update_from_thought s3 t4).
  set (s4 := update_from_thought s3 t4).
  assert (K0 : kept_bounds s0) by apply kept_bounds_default.
  assert (K1 : kept_bounds s1) by now apply kept_bounds_update.
  assert (K2 : kept_bounds s2) by now apply kept_bounds_update.
  assert (K3 : kept_bounds s3) by now apply kept_bounds_update.
  assert (K4 : kept_bounds s4) by now apply kept_bounds_update.
  assert (V : valence s4 = 0)
    by (unfold s4, s3, s2, s1; now rewrite !update_valence).
  assert (C : 6561 # 20000 <= coherence s4).
  { assert (coherence s0 * (9 # 10) <= coherence s1)
      by (apply update_coherence_lower, K0).
    assert (coherence s1 * (9 # 10) <= coherence s2)
      by (apply update_coherence_lower, K1).
    assert (coherence s2 * (9 # 10) <= coherence s3)
      by (apply update_coherence_lower, K2).
    assert (coherence s3 * (9 # 10) <= coherence s4)
      by (apply update_coherence_lower, K3).
    change (coherence s0) with (1 # 2) in *.
    clearbody s1 s2 s3 s4. lra. }
  assert (A : arousal s4 <= 21 # 20).
  { apply update_arousal_step.
    assert (arousal s1 <= arousal s0 + (3 # 20))
      by apply update_arousal_upper.
    assert (arousal s2 <= arousal s1 + (3 # 20))
      by apply update_arousal_upper.
    assert (arousal s3 <= arousal s2 + (3 # 20))
      by apply update_arousal_upper.
    change (arousal s0) with (1 # 2) in *.
    clearbody s1 s2 s3. lra. }
  assert (S : stress_level s4 <= 7 # 10).
  { unfold stress_level. rewrite V.
    destruct K4 as (Ha & _ & [_ Hc] & _).
    clearbody s4. unfold Qdiv. change (/ 2) with (1 # 2). nra. }
  repeat split; trivial.
  unfold dialogue_rounds_of. now rewrite (proj2 (Qltb_ge _ _) S).
Qed.

(** ** Running the computations *)

Section Runs.

Variable B : Backend.

(** How [bind] runs: the first computation raises, or the second runs from
    where the first ended. *)
Lemma bind_raises {A C} (m : M B A) (f : A -> M B C) st e :
  result (m st) = inl e ->
  bind B m f st = mkOut (inl e) (final (m st)) (history (m st)).
Proof. intros E. unfold bind. now rewrite E. Qed.

Lemma bind_returns {A C} (m : M B A) (f : A -> M B C) st a :
  result (m st) = inr a ->
  bind B m f st =
    mkOut (result (f a (final (m st)))) (final (f a (final (m st))))
          (history (m st) ++ history (f a (final (m st)))).
Proof. intros E. unfold bind. now rewrite E. Qed.

(** The monad laws, at every state. *)
Lemma bind_ret_l {A C} (a : A) (f : A -> M B C) st :
  bind B (ret B a) f st = f a st.
Proof. unfold bind, ret; cbn. now destruct (f a st). Qed.

Lemma bind_assoc {A C D} (m : M B A) (f : A -> M B C) (g : C -> M B D) st :
  bind B (bind B m f) g st = bind B m (fun x => bind B (f x) g) st.
Proof.
  unfold bind. destruct (result (m st)); cbn; trivial.
  destruct (result (f a (final (m st)))); cbn; trivial.
  now rewrite app_assoc.
Qed.

Lemma bind_ext {A C} (m : M B A) (f g : A -> M B C) :
  (forall a st, f a st = g a st) -> forall st, bind B m f st = bind B m g st.
Proof.
  intros H st. unfold bind. destruct (result (m st)); trivial. now rewrite H.
Qed.

(** Splits a goal about [bind m f st] along the result of [m st]. *)
Ltac run_bind E :=
  match goal with
  | |- context [bind ?B ?m ?f ?st] =>
      let a := fresh "a" in
      destruct (result (m st)) as [?e | a] eqn:E;
      [ rewrite (bind_raises m f st _ E)
      | rewrite (bind_returns m f st _ E) ]
  end.

Lemma steps_one s h r s' : block s h r s' -> steps s h r s'.
Proof.
  destruct r as [e|]; intros H.
  - now apply steps_abort.
  - rewrite <- (app_nil_r h). eapply steps_more; [eassumption|constructor].
Qed.

Lemma steps_app s1 h1 s2 h2 r s3 :
  steps s1 h1 None s2 -> steps s2 h2 r s3 -> steps s1 (h1 ++ h2) r s3.
Proof.
  intros H. remember None as r0 eqn:Er. revert h2 r s3.
  induction H as [s | s1 h1 s2 h1' r0 s2' Hb Hs IH | s h e s' Hb];
    intros h2 r s3 H2.
  - exact H2.
  - rewrite <- app_assoc. eapply steps_more; [eassumption|]. now apply IH.
  - discriminate.
Qed.

Lemma sound_ret {A} (a : A) : sound (ret B a).
Proof. intros st. constructor. Qed.

Lemma sound_bind {A C} (m : M B A) (f : A -> M B C) :
  sound m -> (forall a, sound (f a)) -> sound (bind B m f).
Proof.
  intros Hm Hf st. specialize (Hm st).
  run_bind E; cbn in *; trivial.
  eapply steps_app; [eassumption|]. apply Hf.
Qed.

Lemma sound_for_each {A C} (xs : list A) (body : A -> C -> M B C) :
  (forall x acc, sound (body x acc)) ->
  forall acc, sound (for_each B xs body acc).
Proof.
  intros Hb. induction xs as [|x xs IH]; intros acc; cbn.
  - apply sound_ret.
  - apply sound_bind; auto.
Qed.

(** A pure step that can only raise [IndexError]. *)
Lemma sound_lift {A} (r : exn + A) :
  (forall e, r = inl e -> e = IndexError) -> sound (lift B r).
Proof.
  intros H st. unfold lift; cbn. destruct r as [e|a]; cbn.
  - rewrite (H e eq_refl). apply steps_one. constructor.
  - constructor.
Qed.

Lemma sound_get_somatic : sound (get_somatic B).
Proof. intros st. constructor. Qed.

Lemma sound_stress_level : sound (somatic_stress_level B).
Proof. intros st. constructor. Qed.

Lemma sound_now : sound (now B).
Proof. intros st. constructor. Qed.

Lemma sound_reset : sound (reset_somatic B).
Proof. intros st. apply steps_one. constructor. Qed.

Lemma sound_starting ph :
  ph <> synthesis -> ph <> complete -> sound (yield B (Starting ph)).
Proof. intros H1 H2 st. apply steps_one. now constructor. Qed.

Lemma create_run req st :
  exists resp env',
    messages_create B (env st) req = (resp, env') /\
    history (create B req st) = [AGenerate req resp] /\
    final (create B req st) = mkState (somatic st) env' /\
    result (create B req st) =
      match resp with
      | Text t => inr t
      | Failure reason => inl (GenerationError reason)
      end.
Proof.
  unfold create. destruct (messages_create B (env st) req) as [resp env'].
  exists resp, env'. destruct resp; cbn; auto.
Qed.

(** A generation call whose request reads the state it is issued in. *)
Lemma create_steps req st :
  early_request (somatic st) req ->
  steps (somatic st) (history (create B req st))
        (raised (result (create B req st)))
        (somatic (final (create B req st))).
Proof.
  intros Hreq.
  destruct (create_run req st) as (resp & env' & _ & -> & -> & ->).
  apply steps_one. destruct resp; cbn; now constructor.
Qed.

Lemma sound_create req :
  (forall s, early_request s req) -> sound (create B req).
Proof. intros H st. now apply create_steps. Qed.

Lemma choice_run options st :
  history (choice B options st) = [] /\
  somatic (final (choice B options st)) = somatic st /\
  (options <> [] -> exists x, result (choice B options st) = inr x) /\
  (forall e, result (choice B options st) = inl e -> e = IndexError).
Proof.
  unfold choice. destruct (random_choice B (env st)) as [r env'].
  destruct (nth_error options (r mod List.length options)) as [x|] eqn:E; cbn.
  - repeat split; eauto. discriminate.
  - repeat split; try congruence.
    intros Hne. apply nth_error_None in E.
    assert (List.length options <> 0)%nat
      by (destruct options; cbn; congruence).
    pose proof (Nat.mod_upper_bound r (List.length options)). lia.
Qed.

Lemma sound_choice options : sound (choice B options).
Proof.
  intros st. destruct (choice_run options st) as (-> & -> & _ & He).
  destruct (result (choice B options st)) as [e|x]; cbn.
  - rewrite (He e eq_refl). apply steps_one. constructor.
  - constructor.
Qed.

(** The step every artifact of phases 1-3 goes through: update, then yield
    the event with the snapshot of the updated state. *)
Lemma sound_artifact t (mk : SomaticState -> Event) :
  (forall s, artifact_event t s (mk s)) ->
  sound (bind B (somatic_update B t) (fun _ =>
         bind B (get_somatic B) (fun s => yield B (mk s)))).
Proof.
  intros H st. cbn. apply steps_one. constructor. apply H.
Qed.

(** *** The generators and the phases follow the transition system *)

Lemma index_last_error {A} (xs : list A) e :
  index_last xs = inl e -> e = IndexError.
Proof. unfold index_last. destruct (rev xs); congruence. Qed.

Lemma parse_round_error text e : parse_round text = inl e -> e = IndexError.
Proof.
  destruct (parse_round_total text) as (entries & E & _).
  unfold parse_round in *. congruence.
Qed.

Lemma sound_IntuitiveMind_think q : sound (IntuitiveMind_think B q).
Proof.
  unfold IntuitiveMind_think.
  apply sound_bind; [apply sound_stress_level|]. intros stress.
  apply sound_for_each. intros i thoughts.
  destruct (client B).
  - apply sound_bind; [|intros; apply sound_ret].
    apply sound_create. intros s. exact I.
  - apply sound_bind; [apply sound_choice|intros; apply sound_ret].
Qed.

Lemma sound_AnalyticalMind_think q ts : sound (AnalyticalMind_think B q ts).
Proof.
  unfold AnalyticalMind_think. destruct (client B); [|apply sound_ret].
  intros st.
  rewrite (bind_returns (somatic_stress_level B) _ st _ eq_refl).
  cbn [history final result somatic_stress_level app].
  apply create_steps. reflexivity.
Qed.

Lemma sound_converse ts a q rounds : sound (converse B ts a q rounds).
Proof.
  unfold converse. apply sound_for_each. intros round_num dlg.
  destruct (client B); [|apply sound_ret].
  apply sound_bind; [apply sound_lift, index_last_error|]. intros said.
  apply sound_bind.
  { destruct (round_num =? 0)%nat; [apply sound_ret|].
    apply sound_bind; [apply sound_lift, index_last_error|].
    intros; apply sound_ret. }
  intros said'.
  apply sound_bind; [apply sound_create; intros s; exact I|]. intros text.
  apply sound_bind; [apply sound_lift, parse_round_error|].
  intros; apply sound_ret.
Qed.

Lemma sound_intuitive_phase q : sound (think_intuitive_phase B q).
Proof.
  unfold think_intuitive_phase.
  apply sound_bind; [apply sound_starting; discriminate|]. intros _.
  apply sound_bind; [apply sound_IntuitiveMind_think|]. intros ts.
  apply sound_bind; [|intros; apply sound_ret].
  apply sound_for_each. intros t _.
  apply sound_artifact. intros s. constructor.
Qed.

Lemma sound_analytical_phase q ts : sound (think_analytical_phase B q ts).
Proof.
  unfold think_analytical_phase.
  apply sound_bind; [apply sound_starting; discriminate|]. intros _.
  apply sound_bind; [apply sound_AnalyticalMind_think|]. intros a.
  intros st. cbn. apply steps_one. constructor. constructor.
Qed.

Lemma sound_dialogue_phase q ts a : sound (think_dialogue_phase B q ts a).
Proof.
  unfold think_dialogue_phase.
  apply sound_bind; [apply sound_starting; discriminate|]. intros _.
  apply sound_bind; [apply sound_stress_level|]. intros stress.
  apply sound_bind; [apply sound_converse|]. intros dlg.
  apply sound_bind; [|intros; apply sound_ret].
  apply sound_for_each. intros x _.
  apply sound_artifact. intros s. constructor.
Qed.

Lemma sound_phases_1_to_3 q : sound (think_phases_1_to_3 B q).
Proof.
  unfold think_phases_1_to_3.
  apply sound_bind; [apply sound_intuitive_phase|]. intros ts.
  apply sound_bind; [apply sound_analytical_phase|]. intros a.
  apply sound_bind; [apply sound_dialogue_phase|]. intros dlg.
  apply sound_ret.
Qed.

(** [MindGym.think] reads the clock, resets the state, runs phases 1-3 and
    then phase 4. *)
Lemma think_split q st :
  MindGym_think B q st =
  bind B (now B) (fun start_time =>
  bind B (reset_somatic B) (fun _ =>
  bind B (think_phases_1_to_3 B q) (fun x =>
    let '(ts, a, dlg) := x in
    think_synthesis_phase B q ts a dlg start_time))) st.
Proof.
  unfold MindGym_think, think_phases_1_to_3.
  do 2 (apply bind_ext; intros ? ?).
  repeat (rewrite bind_assoc; apply bind_ext; intros ? ?).
  now rewrite bind_ret_l.
Qed.

Lemma bind_now {C} (f : Q -> M B C) st :
  bind B (now B) f st = f (time_time B (env st)) st.
Proof. unfold bind, now; cbn. now destruct (f _ st). Qed.

Lemma bind_reset {C} (f : unit -> M B C) st :
  let o := bind B (reset_somatic B) f st in
  let o' := f tt (entry B st) in
  result o = result o' /\ final o = final o' /\
  history o = AReset SomaticState_default :: history o'.
Proof. unfold bind, reset_somatic; cbn. auto. Qed.

Lemma think_after_reset q st :
  let o := MindGym_think B q st in
  let o' := bind B (think_phases_1_to_3 B q) (fun x =>
              let '(ts, a, dlg) := x in
              think_synthesis_phase B q ts a dlg (time_time B (env st)))
              (entry B st) in
  result o = result o' /\ final o = final o' /\
  history o = AReset SomaticState_default :: history o'.
Proof.
  cbv zeta. rewrite think_split, bind_now. apply bind_reset.
Qed.

(** What phase 4 does. *)
Lemma synthesis_phase_run q ts a dlg start st :
  let o := think_synthesis_phase B q ts a dlg start st in
  let s := somatic st in
  somatic (final o) = s /\
  ((exists req reason,
      late_request s req /\
      result o = inl (GenerationError reason) /\
      history o = [AYield (Starting synthesis); AGenerate req (Failure reason)])
   \/
   (exists gen syn elapsed,
      (gen = [] \/ (exists req, late_request s req /\
                               gen = [AGenerate req (Text syn)])) /\
      result o = inr tt /\
      history o =
        [AYield (Starting synthesis)] ++ gen ++
        [AYield (Complete syn elapsed (stress_level s) (coherence s)
                          (needs_rest s))])).
Proof.
  unfold think_synthesis_phase, synthesize, bind; cbn.
  destruct (client B); cbn.
  - unfold create.
    destruct (messages_create B (env st) _) as [[syn|reason] env']; cbn.
    + split; trivial. right. exists [AGenerate (synthesis_request q ts a dlg (somatic st)) (Text syn)], syn.
      eexists. split; [|split; reflexivity].
      right. eexists. split; [|reflexivity]. cbn. auto.
    + split; trivial. left. do 2 eexists. split; [|split; reflexivity].
      cbn. auto.
  - split; trivial. right. exists [], (mock_synthesis q).
    eexists. split; [now left|]. split; reflexivity.
Qed.

(** Every run of [MindGym.think] resets the state and then ends in one of
    the three ways. *)
Theorem think_outcome_holds q st :
  let o := MindGym_think B q st in
  exists h,
    history o = AReset SomaticState_default :: h /\
    think_outcome SomaticState_default h (result o) (somatic (final o)).
Proof.
  cbv zeta. destruct (think_after_reset q st) as (-> & -> & ->).
  eexists. split; [reflexivity|].
  pose proof (sound_phases_1_to_3 q (entry B st)) as He.
  run_bind E; cbn [history final result] in *; cbn [raised] in He.
  - now constructor.
  - destruct a as [[ts a] dlg].
    destruct (synthesis_phase_run q ts a dlg (time_time B (env st))
                (final (think_phases_1_to_3 B q (entry B st))))
      as (Hs & [(req & reason & Hreq & -> & ->)
               |(gen & syn & elapsed & Hgen & -> & ->)]);
      cbv zeta in Hs; rewrite Hs.
    + now constructor.
    + now constructor.
Qed.

(** *** Computations that only generate *)

Lemma generator_ret {A} (a : A) : generator B (ret B a).
Proof. intros st. split; [reflexivity|]. intros a' []. Qed.

Lemma generator_lift {A} (r : exn + A) : generator B (lift B r).
Proof. intros st. split; [reflexivity|]. intros a' []. Qed.

Lemma generator_stress_level : generator B (somatic_stress_level B).
Proof. intros st. split; [reflexivity|]. intros a' []. Qed.

Lemma generator_get_somatic : generator B (get_somatic B).
Proof. intros st. split; [reflexivity|]. intros a' []. Qed.

Lemma generator_create req : generator B (create B req).
Proof.
  intros st. destruct (create_run req st) as (resp & env' & _ & -> & -> & _).
  split; [reflexivity|]. intros a [<- | []]. exact I.
Qed.

Lemma generator_choice options : generator B (choice B options).
Proof.
  intros st. destruct (choice_run options st) as (-> & -> & _).
  split; [reflexivity|]. intros a [].
Qed.

Lemma generator_bind {A C} (m : M B A) (f : A -> M B C) :
  generator B m -> (forall a, generator B (f a)) -> generator B (bind B m f).
Proof.
  intros Hm Hf st. destruct (Hm st) as [Hs Hh].
  run_bind E; cbn [final history]; [split; assumption|].
  destruct (Hf a (final (m st))) as [Hs' Hh'].
  split; [congruence|]. intros x Hx.
  apply in_app_or in Hx as [Hx|Hx]; [now apply Hh|now apply Hh'].
Qed.

Lemma generator_for_each {A C} (xs : list A) (body : A -> C -> M B C) :
  (forall x acc, generator B (body x acc)) ->
  forall acc, generator B (for_each B xs body acc).
Proof.
  intros Hb. induction xs as [|x xs IH]; intros acc; cbn.
  - apply generator_ret.
  - apply generator_bind; auto.
Qed.

Lemma generator_IntuitiveMind_think q : generator B (IntuitiveMind_think B q).
Proof.
  unfold IntuitiveMind_think.
  apply generator_bind; [apply generator_stress_level|]. intros stress.
  apply generator_for_each. intros i thoughts.
  destruct (client B);
    (apply generator_bind; [|intros; apply generator_ret]).
  - apply generator_create.
  - apply generator_choice.
Qed.

Lemma generator_AnalyticalMind_think q ts :
  generator B (AnalyticalMind_think B q ts).
Proof.
  unfold AnalyticalMind_think. destruct (client B); [|apply generator_ret].
  apply generator_bind; [apply generator_stress_level|].
  intros; apply generator_create.
Qed.

Lemma generator_converse ts a q rounds : generator B (converse B ts a q rounds).
Proof.
  unfold converse. apply generator_for_each. intros round_num dlg.
  destruct (client B); [|apply generator_ret].
  apply generator_bind; [apply generator_lift|]. intros said.
  apply generator_bind.
  { destruct (round_num =? 0)%nat; [apply generator_ret|].
    apply generator_bind; [apply generator_lift|].
    intros; apply generator_ret. }
  intros said'.
  apply generator_bind; [apply generator_create|]. intros text.
  apply generator_bind; [apply generator_lift|].
  intros; apply generator_ret.
Qed.

(** *** Computations that stay in range *)

Lemma in_range_ret {A} (a : A) : in_range B (ret B a).
Proof. intros st. discriminate. Qed.

Lemma in_range_create req : in_range B (create B req).
Proof.
  intros st. destruct (create_run req st) as (resp & env' & _ & _ & _ & ->).
  destruct resp; discriminate.
Qed.

Lemma in_range_bind {A C} (m : M B A) (f : A -> M B C) :
  in_range B m -> (forall a, in_range B (f a)) -> in_range B (bind B m f).
Proof.
  intros Hm Hf st. specialize (Hm st).
  run_bind E; cbn [result]; [congruence|apply Hf].
Qed.

Lemma in_range_for_each {A C} (xs : list A) (body : A -> C -> M B C) :
  (forall x acc, in_range B (body x acc)) ->
  forall acc, in_range B (for_each B xs body acc).
Proof.
  intros Hb. induction xs as [|x xs IH]; intros acc; cbn.
  - apply in_range_ret.
  - apply in_range_bind; auto.
Qed.

Lemma in_range_choice options :
  options <> [] -> in_range B (choice B options).
Proof.
  intros Hne st. destruct (choice_run options st) as (_ & _ & Hr & _).
  destruct (Hr Hne) as [x ->]. discriminate.
Qed.

Lemma in_range_IntuitiveMind_think q : in_range B (IntuitiveMind_think B q).
Proof.
  unfold IntuitiveMind_think.
  apply in_range_bind; [intros st; discriminate|]. intros stress.
  apply in_range_for_each. intros i thoughts.
  destruct (client B);
    (apply in_range_bind; [|intros; apply in_range_ret]).
  - apply in_range_create.
  - apply in_range_choice. discriminate.
Qed.

Lemma in_range_AnalyticalMind_think q ts :
  in_range B (AnalyticalMind_think B q ts).
Proof.
  unfold AnalyticalMind_think. destruct (client B); [|apply in_range_ret].
  apply in_range_bind; [intros st; discriminate|].
  intros; apply in_range_create.
Qed.

(** A run of a sound computation returns unless it raises [IndexError] or
    a generation call fails. *)
Lemma returns_if_clean {A} (m : M B A) st :
  sound m -> result (m st) <> inl IndexError -> clean (history (m st)) ->
  exists a, result (m st) = inr a.
Proof.
  intros Hs Hr Hc. specialize (Hs st).
  destruct (result (m st)) as [e|a]; [exfalso|eauto].
  cbn in Hs. apply steps_failure in Hs
    as [[-> _] | (h' & req & reason & -> & Eh & _)]; [congruence|].
  rewrite Eh in Hc.
  specialize (Hc (AGenerate req (Failure reason))).
  rewrite in_app_iff in Hc. cbn in Hc. discriminate Hc. auto.
Qed.

(** *** The loop that updates on each artifact and yields it *)

Lemma artifact_loop_run {X} (f : X -> string)
    (mk : X -> SomaticState -> Event) (xs : list X) st :
  let o := for_each B xs
             (fun x _ => bind B (somatic_update B (f x)) (fun _ =>
                         bind B (get_somatic B) (fun s => yield B (mk x s))))
             tt st in
  result o = inr tt /\
  final o = mkState (updates (somatic st) (map f xs)) (env st) /\
  generations (history o) = [].
Proof.
  cbv zeta. revert st. induction xs as [|x xs IH]; intros st.
  - cbn. destruct st. auto.
  - cbn [for_each map].
    rewrite bind_returns with (a := tt) by reflexivity.
    cbn [result final history].
    match goal with
    | |- context [for_each B xs ?body tt ?st'] =>
        destruct (IH st') as (-> & -> & Hg)
    end.
    unfold generations in *. rewrite flat_map_app, Hg. cbn. auto.
Qed.

(** *** The intuitive burst *)

(** One pass of the loop of [IntuitiveMind.think]. *)
Lemma intuitive_step_run q n i thoughts st :
  let o := (if client B
            then bind B (create B (intuitive_request q i n))
                        (fun text => ret B (thoughts ++ [text]))
            else bind B (choice B (associations q))
                        (fun text => ret B (thoughts ++ [text]))) st in
  (forall ts, result o = inr ts ->
     List.length ts = S (List.length thoughts)) /\
  (forall a, In a (history o) ->
     exists resp, a = AGenerate (intuitive_request q i n) resp).
Proof.
  cbv zeta. destruct (client B).
  - destruct (create_run (intuitive_request q i n) st)
      as (resp & _ & _ & Hh & _).
    run_bind E; cbn [result history]; rewrite Hh.
    + split; [discriminate|]. intros x [<- | []]. eauto.
    + split.
      * intros ts [= <-]. rewrite length_app. cbn. lia.
      * intros x [<- | []]. eauto.
  - destruct (choice_run (associations q) st) as (Hh & _).
    run_bind E; cbn [result history]; rewrite Hh.
    + split; [discriminate|]. intros x [].
    + split.
      * intros ts [= <-]. rewrite length_app. cbn. lia.
      * intros x [].
Qed.

Lemma intuitive_loop_run q n (l : list nat) thoughts st :
  let o := for_each B l
             (fun i thoughts =>
                if client B
                then bind B (create B (intuitive_request q i n))
                            (fun text => ret B (thoughts ++ [text]))
                else bind B (choice B (associations q))
                            (fun text => ret B (thoughts ++ [text])))
             thoughts st in
  (forall ts, result o = inr ts ->
     List.length ts = (List.length thoughts + List.length l)%nat) /\
  (forall a, In a (history o) ->
     exists i resp, In i l /\ a = AGenerate (intuitive_request q i n) resp).
Proof.
  cbv zeta. revert thoughts st.
  induction l as [|i l IH]; intros thoughts st; cbn [for_each].
  - split.
    + intros ts [= <-]. cbn. lia.
    + intros a [].
  - destruct (intuitive_step_run q n i thoughts st) as [Hlen Hh].
    cbv zeta in Hlen, Hh.
    run_bind E; cbn [result history].
    + split; [discriminate|]. intros x Hx.
      destruct (Hh x Hx) as [resp ->]. exists i, resp. cbn. auto.
    + match goal with
      | |- context [for_each B l ?body a ?st'] =>
          destruct (IH a st') as [IHl IHh]
      end.
      split.
      * intros ts Hts. rewrite (IHl ts Hts), (Hlen a eq_refl). cbn. lia.
      * intros x Hx. apply in_app_or in Hx as [Hx|Hx].
        -- destruct (Hh x Hx) as [resp ->]. exists i, resp. cbn. auto.
        -- destruct (IHh x Hx) as (j & resp & Hj & ->).
           exists j, resp. cbn. auto.
Qed.

Lemma IntuitiveMind_think_run q st :
  let o := IntuitiveMind_think B q st in
  let n := burst_size_of (somatic st) in
  (forall ts, result o = inr ts -> List.length ts = n) /\
  (forall a, In a (history o) ->
     exists i resp, (i < n)%nat /\ a = AGenerate (intuitive_request q i n) resp).
Proof.
  cbv zeta. unfold IntuitiveMind_think.
  rewrite (bind_returns (somatic_stress_level B) _ st _ eq_refl).
  cbn [result final history somatic_stress_level app].
  fold (burst_size_of (somatic st)).
  destruct (intuitive_loop_run q (burst_size_of (somatic st))
              (seq 0 (burst_size_of (somatic st))) [] st) as [Hlen Hh].
  cbv zeta in Hlen, Hh. split.
  - intros ts Hts. rewrite (Hlen ts Hts), length_seq. reflexivity.
  - intros a Ha. destruct (Hh a Ha) as (i & resp & Hi & ->).
    apply in_seq in Hi. exists i, resp. split; [lia|reflexivity].
Qed.

(** *** Phase 1 and phase 2 *)

Lemma yield_then {C} e (f : unit -> M B C) st :
  let o := bind B (yield B e) f st in
  result o = result (f tt st) /\ final o = final (f tt st) /\
  history o = AYield e :: history (f tt st).
Proof. unfold bind, yield; cbn. auto. Qed.

(** Phase 1 returns as many fragments as the burst size at its entry and
    leaves the state updated on each of them, in order. *)
Lemma intuitive_phase_run q st ts :
  let o := think_intuitive_phase B q st in
  result o = inr ts ->
  List.length ts = burst_size_of (somatic st) /\
  somatic (final o) = updates (somatic st) ts.
Proof.
  cbv zeta. unfold think_intuitive_phase.
  destruct (yield_then (Starting intuitive)
              (fun _ => bind B (IntuitiveMind_think B q) (fun ts0 =>
                 bind B (for_each B ts0
                   (fun thought _ =>
                      bind B (somatic_update B thought) (fun _ =>
                      bind B (get_somatic B) (fun s =>
                        yield B (IntuitiveThought thought (stress_level s)
                                                  (coherence s)))))
                   tt) (fun _ => ret B ts0))) st) as (-> & -> & _).
  destruct (IntuitiveMind_think_run q st) as [Hlen _].
  destruct (generator_IntuitiveMind_think q st) as [Hsom _].
  cbv zeta in Hlen.
  run_bind E; cbn [result final]; [discriminate|].
  destruct (artifact_loop_run (fun t : string => t)
              (fun t s => IntuitiveThought t (stress_level s) (coherence s))
              a (final (IntuitiveMind_think B q st))) as (Hr & Hf & _).
  cbv beta zeta in Hr, Hf.
  rewrite (bind_returns _ _ _ tt Hr). cbn [result final ret].
  intros [= <-]. split; [now apply Hlen|].
  rewrite Hf. cbn [somatic]. now rewrite map_id, Hsom.
Qed.

(** Phase 2 leaves the state updated on the analysis. *)
Lemma analytical_phase_run q ts st a :
  let o := think_analytical_phase B q ts st in
  result o = inr a ->
  somatic (final o) = update_from_thought (somatic st) a.
Proof.
  cbv zeta. unfold think_analytical_phase.
  destruct (yield_then (Starting analytical)
              (fun _ => bind B (AnalyticalMind_think B q ts) (fun a0 =>
                 bind B (somatic_update B a0) (fun _ =>
                 bind B (get_somatic B) (fun s =>
                 bind B (yield B (AnalyticalThought a0 (stress_level s)
                                                    (tension s)))
                        (fun _ => ret B a0))))) st) as (-> & -> & _).
  destruct (generator_AnalyticalMind_think q ts st) as [Hsom _].
  run_bind E; cbn [result final]; [discriminate|].
  cbn. intros [= <-]. now rewrite Hsom.
Qed.

(** The state phase 3 is entered in: the default state updated on the
    three fragments and the analysis. *)
Lemma until_dialogue_run q st start ts a :
  let o := think_until_dialogue B q st in
  result o = inr (start, ts, a) ->
  List.length ts = 3%nat /\
  somatic (final o) = updates SomaticState_default (ts ++ [a]).
Proof.
  cbv zeta. unfold think_until_dialogue. rewrite bind_now.
  match goal with
  | |- context [bind B (reset_somatic B) ?f st] =>
      destruct (bind_reset f st) as (-> & -> & _)
  end.
  run_bind E1; cbn [result final]; [discriminate|].
  run_bind E2; cbn [result final]; [discriminate|].
  cbn [ret result final]. intros [= _ <- <-].
  destruct (intuitive_phase_run q (entry B st) a0 E1) as [Hlen Hs1].
  pose proof (analytical_phase_run q a0 _ a1 E2) as Hs2.
  split; [exact Hlen|]. rewrite Hs2, Hs1, updates_snoc. reflexivity.
Qed.

(** *** The dialogue *)

Lemma generations_app h1 h2 :
  generations (h1 ++ h2) = generations h1 ++ generations h2.
Proof. unfold generations. apply flat_map_app. Qed.

(** The text a round of the dialogue answers to. *)
Lemma said_before_run a (k : nat) (acc : list Exchange) st :
  let o := (if (k =? 0)%nat then ret B a
            else bind B (lift B (index_last acc))
                        (fun last => ret B (content last))) st in
  final o = st /\ history o = [] /\
  (forall e, result o = inl e -> e = IndexError /\ k <> 0%nat /\ acc = []).
Proof.
  cbv zeta. destruct (k =? 0)%nat eqn:Ek.
  - cbn. repeat split; discriminate.
  - apply Nat.eqb_neq in Ek. unfold bind, lift; cbn.
    unfold index_last. destruct (rev acc) as [|x l] eqn:E; cbn.
    + repeat split; trivial; try congruence.
      apply (f_equal (@rev Exchange)) in E.
      now rewrite rev_involutive in E.
    + repeat split; discriminate.
Qed.

(** One round of [converse] with a client: it raises [IndexError] before
    any call, or issues one request that names the round and the number of
    rounds and, when the call succeeds, adds the entries of the answer. *)
Lemma converse_round_run ts a q rounds k acc st :
  let o :=
    bind B (lift B (index_last ts)) (fun intuitive_said =>
    bind B (if (k =? 0)%nat then ret B a
            else bind B (lift B (index_last acc))
                        (fun last => ret B (content last)))
         (fun analytical_said =>
    bind B (create B (dialogue_request q intuitive_said analytical_said
                                       k rounds)) (fun text =>
    bind B (lift B (parse_round text)) (fun entries =>
    ret B (acc ++ entries))))) st in
  (result o = inl IndexError /\ history o = [] /\
   (ts = [] \/ (k <> 0%nat /\ acc = [])))
  \/
  (exists s1 s2 resp,
     history o = [AGenerate (dialogue_request q s1 s2 k rounds) resp] /\
     match resp with
     | Failure reason => result o = inl (GenerationError reason)
     | Text text =>
         exists entries,
           parse_round text = inr entries /\ result o = inr (acc ++ entries)
     end).
Proof.
  cbv zeta.
  destruct (index_last ts) as [e|said] eqn:E1.
  { left. rewrite (bind_raises (lift B (inl e)) _ st e eq_refl).
    cbn [lift result final history].
    rewrite (index_last_error _ _ E1). repeat split. left.
    unfold index_last in E1. destruct (rev ts) as [|x l] eqn:E; [|discriminate].
    apply (f_equal (@rev string)) in E. now rewrite rev_involutive in E. }
  rewrite (bind_returns (lift B (inr said)) _ st said eq_refl).
  cbn [lift result final history app].
  destruct (said_before_run a k acc st) as (Hf2 & Hh2 & He2).
  cbv zeta in Hf2, Hh2, He2.
  run_bind E2; rewrite ?Hh2, ?Hf2.
  { left. destruct (He2 _ eq_refl) as (-> & Hk & Hacc). auto. }
  right. exists said, a0.
  destruct (create_run (dialogue_request q said a0 k rounds) st)
    as (resp & env' & _ & Hh3 & Hf3 & Hr3).
  exists resp. run_bind E3; rewrite Hh3; cbn [app].
  - split; trivial. destruct resp; [discriminate|]. cbn. congruence.
  - destruct resp as [text|]; [|discriminate]. injection Hr3 as ->.
    destruct (parse_round_total text) as (entries & Ep & _).
    unfold bind, lift, ret; cbn. rewrite Ep; cbn. eauto.
Qed.

(** One pass of the loop of [converse], with or without a client. *)
Lemma converse_step_run ts a q rounds k acc st :
  let o :=
    (if client B
     then
       bind B (lift B (index_last ts)) (fun intuitive_said =>
       bind B (if (k =? 0)%nat then ret B a
               else bind B (lift B (index_last acc))
                           (fun last => ret B (content last)))
            (fun analytical_said =>
       bind B (create B (dialogue_request q intuitive_said analytical_said
                                          k rounds)) (fun text =>
       bind B (lift B (parse_round text)) (fun entries =>
       ret B (acc ++ entries)))))
     else ret B (acc ++ mock_round q)) st in
  (forall req resp, In (req, resp) (generations (history o)) ->
     exists s1 s2, req = dialogue_request q s1 s2 k rounds) /\
  (forall d, result o = inr d ->
     d <> [] /\
     if client B then List.length (generations (history o)) = 1%nat
     else List.length d = (List.length acc + 2)%nat /\ history o = []) /\
  (ts <> [] -> (k = 0%nat \/ acc <> []) -> result o <> inl IndexError).
Proof.
  cbv zeta. destruct (client B).
  - destruct (converse_round_run ts a q rounds k acc st)
      as [(Hr & Hh & Hwhy) | (s1 & s2 & resp & Hh & Hres)];
      rewrite Hh.
    + rewrite Hr. repeat split; try discriminate; try contradiction.
      intros Hts Hinv _. destruct Hwhy as [?|[? ?]]; [contradiction|].
      destruct Hinv; contradiction.
    + split; [|split].
      * intros req resp' [[= <- <-]|[]]. eauto.
      * intros d Hd. split; [|reflexivity].
        destruct resp as [text|reason]; [|congruence].
        destruct Hres as (entries & Ep & Hr). rewrite Hr in Hd.
        injection Hd as <-.
        destruct (parse_round_total text) as (en & Ep' & Hlen).
        rewrite Ep in Ep'. injection Ep' as <-.
        destruct entries; [cbn in Hlen; lia|]. now destruct acc.
      * intros _ _. destruct resp as [text|reason].
        -- destruct Hres as (entries & _ & ->). discriminate.
        -- rewrite Hres. discriminate.
  - cbn. split; [intros ? ? []|split].
    + intros d [= <-]. rewrite length_app. repeat split. now destruct acc.
    + intros _ _. discriminate.
Qed.

(** The rounds [k], [k+1], ... of [converse]. *)
Lemma converse_loop_run ts a q rounds n :
  forall k acc st,
  let o := for_each B (seq k n)
    (fun round_num dlg =>
       if client B
       then
         bind B (lift B (index_last ts)) (fun intuitive_said =>
         bind B (if (round_num =? 0)%nat then ret B a
                 else bind B (lift B (index_last dlg))
                             (fun last => ret B (content last)))
              (fun analytical_said =>
         bind B (create B (dialogue_request q intuitive_said analytical_said
                                            round_num rounds)) (fun text =>
         bind B (lift B (parse_round text)) (fun entries =>
         ret B (dlg ++ entries)))))
       else ret B (dlg ++ mock_round q))
    acc st in
  (forall req resp, In (req, resp) (generations (history o)) ->
     exists s1 s2 i, (k <= i < k + n)%nat /\
                     req = dialogue_request q s1 s2 i rounds) /\
  (forall d, result o = inr d ->
     if client B then List.length (generations (history o)) = n
     else List.length d = (List.length acc + 2 * n)%nat) /\
  (ts <> [] -> (k = 0%nat \/ acc <> []) -> result o <> inl IndexError).
Proof.
  induction n as [|n IH]; intros k acc st; cbv zeta; cbn [seq for_each].
  - cbn. repeat split; try discriminate; try contradiction.
    intros d [= <-]. destruct (client B); [reflexivity|lia].
  - destruct (converse_step_run ts a q rounds k acc st)
      as (Hreq & Hret & Hrange).
    cbv zeta in Hreq, Hret, Hrange.
    run_bind E; cbn [result history].
    + split; [|split]; [|discriminate|].
      * intros req resp Hin. destruct (Hreq req resp Hin) as (s1 & s2 & ->).
        exists s1, s2, k. split; [lia|reflexivity].
      * intros Hts Hinv. now apply Hrange.
    + match goal with
      | |- context [for_each B (seq (S k) n) ?body a0 ?st'] =>
          destruct (IH (S k) a0 st') as (IHreq & IHlen & IHrange)
      end.
      destruct (Hret a0 eq_refl) as [Hne Hone].
      split; [|split].
      * rewrite generations_app. intros req resp Hin.
        apply in_app_or in Hin as [Hin|Hin].
        -- destruct (Hreq req resp Hin) as (s1 & s2 & ->).
           exists s1, s2, k. split; [lia|reflexivity].
        -- destruct (IHreq req resp Hin) as (s1 & s2 & i & Hi & ->).
           exists s1, s2, i. split; [lia|reflexivity].
      * intros d Hd. specialize (IHlen d Hd). rewrite generations_app.
        destruct (client B).
        -- rewrite length_app, Hone, IHlen. reflexivity.
        -- rewrite IHlen. lia.
      * intros Hts _. apply IHrange; auto.
Qed.

Lemma converse_run ts a q rounds st :
  let o := converse B ts a q rounds st in
  (forall req resp, In (req, resp) (generations (history o)) ->
     exists s1 s2 i, (i < rounds)%nat /\
                     req = dialogue_request q s1 s2 i rounds) /\
  (forall d, result o = inr d ->
     if client B then List.length (generations (history o)) = rounds
     else List.length d = (2 * rounds)%nat) /\
  (ts <> [] -> result o <> inl IndexError).
Proof.
  cbv zeta. unfold converse.
  destruct (converse_loop_run ts a q rounds rounds 0 [] st)
    as (Hreq & Hlen & Hrange).
  cbv zeta in Hreq, Hlen, Hrange. split; [|split].
  - intros req resp Hin.
    destruct (Hreq req resp Hin) as (s1 & s2 & i & Hi & ->).
    exists s1, s2, i. split; [lia|reflexivity].
  - exact Hlen.
  - intros Hts. apply Hrange; auto.
Qed.

(** Phase 3: the number of rounds is read from the state at its entry and
    every request of the phase names that number. *)
Lemma dialogue_phase_run q ts a st :
  let o := think_dialogue_phase B q ts a st in
  let n := dialogue_rounds_of (somatic st) in
  (forall req resp, In (req, resp) (generations (history o)) ->
     exists s1 s2 i, (i < n)%nat /\ req = dialogue_request q s1 s2 i n) /\
  (forall d, result o = inr d ->
     if client B then List.length (generations (history o)) = n
     else List.length d = (2 * n)%nat) /\
  (ts <> [] -> result o <> inl IndexError).
Proof.
  cbv zeta. unfold think_dialogue_phase.
  match goal with
  | |- context [bind B (yield B ?e) ?f st] =>
      destruct (yield_then e f st) as (-> & _ & ->)
  end.
  rewrite (bind_returns (somatic_stress_level B) _ st _ eq_refl).
  cbn [result final history somatic_stress_level app].
  fold (dialogue_rounds_of (somatic st)).
  destruct (converse_run ts a q (dialogue_rounds_of (somatic st)) st)
    as (Hreq & Hlen & Hrange).
  cbv zeta in Hreq, Hlen, Hrange.
  run_bind E; cbn [result history].
  - split; [|split]; [exact Hreq|discriminate|exact Hrange].
  - destruct (artifact_loop_run content
                (fun x s => DialogueThought (speaker x) (content x)
                                            (coherence s))
                a0 (final (converse B ts a q
                             (dialogue_rounds_of (somatic st)) st)))
      as (Hr & _ & Hg).
    cbv beta zeta in Hr, Hg.
    rewrite (bind_returns _ _ _ tt Hr). cbn [result history ret].
    change (generations (AYield (Starting dialogue) :: ?h))
      with (generations h).
    rewrite app_nil_r, generations_app, Hg, app_nil_r.
    split; [|split]; [exact Hreq| |discriminate].
    intros d [= <-]. now apply Hlen.
Qed.

(** *** [MindGym.think] never raises [IndexError] *)

Lemma in_range_intuitive_phase q : in_range B (think_intuitive_phase B q).
Proof.
  unfold think_intuitive_phase.
  apply in_range_bind; [intros st; discriminate|]. intros _.
  apply in_range_bind; [apply in_range_IntuitiveMind_think|]. intros ts.
  apply in_range_bind; [|intros; apply in_range_ret].
  intros st.
  destruct (artifact_loop_run (fun t : string => t)
              (fun t s => IntuitiveThought t (stress_level s) (coherence s))
              ts st) as (Hr & _).
  cbv beta zeta in Hr. rewrite Hr. discriminate.
Qed.

Lemma in_range_analytical_phase q ts :
  in_range B (think_analytical_phase B q ts).
Proof.
  unfold think_analytical_phase.
  apply in_range_bind; [intros st; discriminate|]. intros _.
  apply in_range_bind; [apply in_range_AnalyticalMind_think|]. intros a.
  intros st. discriminate.
Qed.

Lemma in_range_phases_1_to_3 q st :
  burst_size_of (somatic st) <> 0%nat ->
  result (think_phases_1_to_3 B q st) <> inl IndexError.
Proof.
  intros Hb. unfold think_phases_1_to_3.
  pose proof (in_range_intuitive_phase q st) as H1.
  run_bind E1; cbn [result]; [congruence|].
  pose proof (in_range_analytical_phase q a (final (think_intuitive_phase B q st)))
    as H2.
  run_bind E2; cbn [result]; [congruence|].
  destruct (dialogue_phase_run q a a0
              (final (think_analytical_phase B q a
                        (final (think_intuitive_phase B q st)))))
    as (_ & _ & H3).
  cbv zeta in H3.
  run_bind E3; cbn [result]; [|discriminate].
  intros [= ->]. apply H3; [|reflexivity].
  destruct (intuitive_phase_run q st a E1) as [Hlen _].
  intros ->. cbn in Hlen. congruence.
Qed.

Lemma in_range_think q : in_range B (MindGym_think B q).
Proof.
  intros st. destruct (think_after_reset q st) as (-> & _ & _).
  pose proof (in_range_phases_1_to_3 q (entry B st)) as H.
  run_bind E; cbn [result].
  { intros [= ->]. apply H; [discriminate|reflexivity]. }
  destruct a as [[ts a] dlg].
  destruct (synthesis_phase_run q ts a dlg (time_time B (env st))
              (final (think_phases_1_to_3 B q (entry B st))))
    as (_ & [(req & reason & _ & -> & _) | (gen & syn & el & _ & -> & _)]);
    discriminate.
Qed.

(** A run in which no generation call fails ends with the [complete]
    event. *)
Lemma think_completes q st :
  clean (history (MindGym_think B q st)) ->
  result (MindGym_think B q st) = inr tt.
Proof.
  intros Hc. pose proof (in_range_think q st) as Hr.
  destruct (think_outcome_holds q st) as (h & Hh & Ho).
  rewrite Hh in Hc.
  assert (Hbad : forall req reason,
             ~ In (AGenerate req (Failure reason)) h).
  { intros req reason Hin.
    specialize (Hc (AGenerate req (Failure reason)) (or_intror Hin)).
    discriminate. }
  destruct Ho as [h e s Hs | h s req reason Hs Hreq | h s gen syn el Hs Hgen].
  - apply steps_failure in Hs
      as [[-> _] | (h'' & req & reason & -> & -> & _)]; [congruence|].
    exfalso. apply (Hbad req reason). apply in_or_app. right. now left.
  - exfalso. apply (Hbad req reason).
    apply in_or_app. right. right. now left.
  - reflexivity.
Qed.

(** [MindGym.think] is the part before phase 3 followed by phases 3 and
    4. *)
Lemma think_from_dialogue q st :
  MindGym_think B q st =
  bind B (think_until_dialogue B q) (fun x =>
    let '(start_time, ts, a) := x in
    bind B (think_dialogue_phase B q ts a) (fun dlg =>
      think_synthesis_phase B q ts a dlg start_time)) st.
Proof.
  unfold MindGym_think, think_until_dialogue.
  repeat (rewrite bind_assoc; apply bind_ext; intros ? ?).
  now rewrite bind_ret_l.
Qed.

Lemma in_generations h req resp :
  In (AGenerate req resp) h <-> In (req, resp) (generations h).
Proof.
  unfold generations. rewrite in_flat_map. split.
  - intros H. exists (AGenerate req resp). split; [exact H|now left].
  - intros (a & Ha & Hin). destruct a; cbn in Hin; try contradiction.
    destruct Hin as [[= <- <-]|[]]. exact Ha.
Qed.

Lemma in_events h e : In e (events h) <-> In (AYield e) h.
Proof.
  unfold events. rewrite in_flat_map. split.
  - intros (a & Ha & Hin). destruct a; cbn in Hin; try contradiction.
    destruct Hin as [<-|[]]. exact Ha.
  - intros H. exists (AYield e). split; [exact H|now left].
Qed.

(** Every run is consistent with the state it is replayed from. *)
Lemma think_consistent q st :
  consistent (somatic st) None (history (MindGym_think B q st)).
Proof.
  destruct (think_outcome_holds q st) as (h & -> & Ho).
  cbn [consistent]. split; [exact I|]. cbn [replay_action].
  generalize (Some (AReset SomaticState_default)). intros prev.
  destruct Ho as [h e s Hs | h s req reason Hs Hreq | h s gen syn el Hs Hgen];
    destruct (steps_consistent _ _ _ _ Hs) as [Es Hc].
  - apply Hc.
  - apply consistent_app; [apply Hc|]. rewrite <- Es. cbn.
    repeat split; auto; discriminate.
  - apply consistent_app; [apply Hc|]. rewrite <- Es.
    destruct Hgen as [-> | (req & Hreq & ->)]; cbn;
      repeat split; auto; discriminate.
Qed.

(** *** The requests of a run *)

(** What a request announces: the burst size in an intuitive prompt, the
    number of rounds in a dialogue prompt. *)
Lemma intuitive_phase_requests q st req resp r :
  In (req, resp) (generations (history (think_intuitive_phase B q st))) ->
  announces (burst_size_of (somatic st)) r req.
Proof.
  unfold think_intuitive_phase.
  match goal with
  | |- context [bind B (yield B ?e) ?f st] =>
      destruct (yield_then e f st) as (_ & _ & ->)
  end.
  change (generations (AYield (Starting intuitive) :: ?h))
    with (generations h).
  destruct (IntuitiveMind_think_run q st) as [_ Hh]. cbv zeta in Hh.
  assert (Hgen : forall x, In x (generations
                               (history (IntuitiveMind_think B q st))) ->
                 announces (burst_size_of (somatic st)) r (fst x)).
  { intros [rq p] Hx. apply in_generations in Hx.
    destruct (Hh _ Hx) as (i & p' & _ & [= -> _]). reflexivity. }
  run_bind E; cbn [history]; [intros Hin; exact (Hgen _ Hin)|].
  destruct (artifact_loop_run (fun t : string => t)
              (fun t s => IntuitiveThought t (stress_level s) (coherence s))
              a (final (IntuitiveMind_think B q st))) as (Hr & _ & Hg).
  cbv beta zeta in Hr, Hg.
  rewrite (bind_returns _ _ _ tt Hr). cbn [history ret].
  rewrite app_nil_r, generations_app, Hg, app_nil_r.
  intros Hin. exact (Hgen _ Hin).
Qed.

Lemma analytical_phase_requests q ts st req resp n r :
  In (req, resp) (generations (history (think_analytical_phase B q ts st))) ->
  announces n r req.
Proof.
  unfold think_analytical_phase.
  match goal with
  | |- context [bind B (yield B ?e) ?f st] =>
      destruct (yield_then e f st) as (_ & _ & ->)
  end.
  change (generations (AYield (Starting analytical) :: ?h))
    with (generations h).
  assert (Hgen : forall x, In x (generations
                               (history (AnalyticalMind_think B q ts st))) ->
                 announces n r (fst x)).
  { unfold AnalyticalMind_think. destruct (client B); [|intros x []].
    rewrite (bind_returns (somatic_stress_level B) _ st _ eq_refl).
    cbn [result final history somatic_stress_level app].
    match goal with
    | |- context [create B ?rq st] =>
        destruct (create_run rq st) as (p & _ & _ & -> & _)
    end.
    intros x [<-|[]]. exact I. }
  run_bind E; cbn [history]; [intros Hin; exact (Hgen _ Hin)|].
  rewrite generations_app, in_app_iff.
  intros [Hin|Hin]; [exact (Hgen _ Hin)|]. cbn in Hin. contradiction.
Qed.

Lemma dialogue_phase_requests q ts a st req resp n :
  In (req, resp) (generations (history (think_dialogue_phase B q ts a st))) ->
  announces n (dialogue_rounds_of (somatic st)) req.
Proof.
  intros Hin. destruct (dialogue_phase_run q ts a st) as (Hreq & _).
  destruct (Hreq req resp Hin) as (s1 & s2 & i & _ & ->). reflexivity.
Qed.

Lemma synthesis_phase_requests q ts a dlg start st req resp n r :
  In (req, resp)
     (generations (history (think_synthesis_phase B q ts a dlg start st))) ->
  announces n r req.
Proof.
  destruct (synthesis_phase_run q ts a dlg start st)
    as (_ & [(rq & reason & Hl & _ & ->)
            |(gen & syn & el & Hgen & _ & ->)]).
  - intros [[= <- _]|[]]. unfold late_request in Hl. unfold announces.
    destruct (prompt rq); tauto.
  - destruct Hgen as [-> | (rq & Hl & ->)]; cbn.
    + intros [].
    + intros [[= <- _]|[]]. unfold late_request in Hl. unfold announces.
      destruct (prompt rq); tauto.
Qed.

(** In every run the intuitive requests announce a burst of 3 and the
    dialogue requests 2 rounds. *)
Lemma think_requests q st req resp :
  In (req, resp) (generations (history (MindGym_think B q st))) ->
  announces 3 2 req.
Proof.
  destruct (think_after_reset q st) as (_ & _ & ->).
  change (generations (AReset SomaticState_default :: ?h))
    with (generations h).
  unfold think_phases_1_to_3. rewrite bind_assoc.
  run_bind E1; cbn [history].
  { apply (intuitive_phase_requests q (entry B st) req resp 2). }
  rewrite generations_app, in_app_iff. intros [Hin|Hin].
  { exact (intuitive_phase_requests q (entry B st) _ _ 2%nat Hin). }
  revert Hin. rewrite bind_assoc.
  run_bind E2; cbn [history].
  { apply analytical_phase_requests. }
  rewrite generations_app, in_app_iff. intros [Hin|Hin].
  { exact (analytical_phase_requests q _ _ _ _ _ _ Hin). }
  revert Hin. rewrite bind_assoc.
  destruct (intuitive_phase_run q (entry B st) a E1) as [Hlen Hs1].
  pose proof (analytical_phase_run q a _ a0 E2) as Hs2.
  assert (Hrounds : dialogue_rounds_of
            (somatic (final (think_analytical_phase B q a
               (final (think_intuitive_phase B q (entry B st)))))) = 2%nat).
  { rewrite Hs2, Hs1. cbn [entry somatic].
    destruct a as [|t1 [|t2 [|t3 [|? ?]]]]; try discriminate.
    apply (after_four_updates t1 t2 t3 a0). }
  run_bind E3; cbn [history].
  { intros Hin. rewrite <- Hrounds.
    exact (dialogue_phase_requests q _ _ _ _ _ _ Hin). }
  rewrite generations_app, in_app_iff. intros [Hin|Hin].
  { rewrite <- Hrounds. exact (dialogue_phase_requests q _ _ _ _ _ _ Hin). }
  revert Hin. rewrite bind_ret_l. apply synthesis_phase_requests.
Qed.

End Runs.

(** * The claims on the pipeline *)

(** ** Stress level *)

(** C5: [stress_level()] returns
    [arousal * (1 - valence) / 2 * (1 - coherence)] of the current fields,
    changes neither the state nor the history, and a second call right
    after the first returns the same value. *)
Theorem C5_stress_level_pure (B : Backend) (st : State B) :
  let o := somatic_stress_level B st in
  let s := somatic st in
  result o = inr (arousal s * (1 - valence s) / 2 * (1 - coherence s)) /\
  final o = st /\
  history o = [] /\
  result (somatic_stress_level B (final o)) = result o.
Proof. cbv zeta. repeat split. Qed.

(** ** Burst size *)

(** C6: [IntuitiveMind.think] reads the stress level once, at its entry;
    when it returns it returns exactly 3 fragments if that level is below
    0.5 and exactly 2 otherwise, and it returns unless a generation call
    fails; it leaves the state as it found it, and every request of the
    burst names the burst size of the entry. *)
Theorem C6_burst_size (B : Backend) (q : string) (st : State B) :
  let o := IntuitiveMind_think B q st in
  let n := if Qltb (stress_level (somatic st)) (1 # 2) then 3%nat else 2%nat in
  (forall ts, result o = inr ts -> List.length ts = n) /\
  (clean (history o) ->
     exists ts, result o = inr ts /\ List.length ts = n) /\
  somatic (final o) = somatic st /\
  (forall a, In a (history o) ->
     exists i resp,
       (i < n)%nat /\ a = AGenerate (intuitive_request q i n) resp).
Proof.
  cbv zeta.
  destruct (IntuitiveMind_think_run B q st) as [Hlen Hh].
  destruct (generator_IntuitiveMind_think B q st) as [Hs _].
  cbv zeta in Hlen, Hh. unfold burst_size_of in Hlen, Hh.
  repeat split; trivial.
  intros Hc.
  destruct (returns_if_clean B (IntuitiveMind_think B q) st
              (sound_IntuitiveMind_think B q)
              (in_range_IntuitiveMind_think B q st) Hc) as [ts Hts].
  exists ts. auto.
Qed.

Lemma C6_burst_size_witness :
  exists ts,
    result (IntuitiveMind_think (scripted false) "q"
              (scripted_start false [])) = inr ts /\
    List.length ts = 3%nat.
Proof.
  apply (proj1 (proj2 (C6_burst_size (scripted false) "q"
                         (scripted_start false [])))).
  intros a Ha. vm_compute in Ha. contradiction.
Defined.

(** ** Dialogue rounds *)

(** C7: phase 3 reads the stress level once, at its entry, and asks for
    exactly 1 round if that level is above 0.7 and exactly 2 otherwise:
    every request of the phase names that number, a phase that returns has
    run that many rounds (that many generation calls with a client, two
    mock entries per round without), and the phase returns unless a
    generation call fails. *)
Theorem C7_dialogue_rounds (B : Backend) (q : string) (ts : list string)
    (a : string) (st : State B) :
  let o := think_dialogue_phase B q ts a st in
  let n := if Qltb (7 # 10) (stress_level (somatic st)) then 1%nat else 2%nat in
  (forall req resp, In (AGenerate req resp) (history o) ->
     exists s1 s2 i, (i < n)%nat /\ req = dialogue_request q s1 s2 i n) /\
  (forall d, result o = inr d ->
     if client B then List.length (generations (history o)) = n
     else List.length d = (2 * n)%nat) /\
  (ts <> [] -> clean (history o) -> exists d, result o = inr d).
Proof.
  cbv zeta.
  destruct (dialogue_phase_run B q ts a st) as (Hreq & Hlen & Hrange).
  cbv zeta in Hreq, Hlen, Hrange. unfold dialogue_rounds_of in *.
  split; [|split].
  - intros req resp Hin. apply (Hreq req resp). now apply in_generations.
  - exact Hlen.
  - intros Hts Hc.
    exact (returns_if_clean B (think_dialogue_phase B q ts a) st
             (sound_dialogue_phase B q ts a) (Hrange Hts) Hc).
Qed.

Lemma C7_dialogue_rounds_witness :
  exists d,
    result (think_dialogue_phase (scripted true) "q" ["A"]%string "B"
              (scripted_start true
                 [Text "INTUITIVE: yes ANALYTICAL: no"; Text "silence"]))
    = inr d.
Proof.
  apply (proj2 (proj2 (C7_dialogue_rounds (scripted true) "q" ["A"]%string
                         "B" (scripted_start true
                 [Text "INTUITIVE: yes ANALYTICAL: no"; Text "silence"])))).
  - discriminate.
  - intros a Ha. vm_compute in Ha.
    repeat destruct Ha as [<- | Ha]; try reflexivity. contradiction.
Defined.

(** ** Parsing a dialogue round *)

(** C8: a generated text with both speaker tags gives exactly two entries,
    the intuitive one first: the text is cut at the first ["ANALYTICAL:"],
    the intuitive entry is what precedes it with the ["INTUITIVE:"] labels
    removed, the analytical entry is what follows up to the next
    ["ANALYTICAL:"], both stripped of surrounding white space, so that a
    text in the format [INTUITIVE: a ANALYTICAL: b] gives [a] and [b]; a
    text with neither tag gives exactly one entry with the speaker
    ["dialogue"] and the whole text; the round never raises, and a run in
    which that text was generated completes unless a generation call
    fails. *)
Theorem C8_dialogue_round_parsing (text : string) :
  (PyStr.contains "INTUITIVE:" text = true ->
   PyStr.contains "ANALYTICAL:" text = true ->
   exists before between rest,
     text = (before ++ "ANALYTICAL:" ++ between ++ rest)%string /\
     PyStr.contains "ANALYTICAL:" before = false /\
     PyStr.contains "ANALYTICAL:" between = false /\
     parse_round text =
       inr [ mkExchange "intuitive"
               (PyStr.strip (PyStr.replace "INTUITIVE:" "" before));
             mkExchange "analytical" (PyStr.strip between) ]) /\
  (forall a b,
     text = ("INTUITIVE:" ++ a ++ "ANALYTICAL:" ++ b)%string ->
     PyStr.contains "INTUITIVE:" a = false ->
     PyStr.contains "ANALYTICAL:" a = false ->
     PyStr.contains "ANALYTICAL:" b = false ->
     parse_round text =
       inr [ mkExchange "intuitive" (PyStr.strip a);
             mkExchange "analytical" (PyStr.strip b) ]) /\
  (PyStr.contains "INTUITIVE:" text = false ->
   PyStr.contains "ANALYTICAL:" text = false ->
   parse_round text = inr [ mkExchange "dialogue" text ]) /\
  (exists entries,
     parse_round text = inr entries /\
     (List.length entries = 1 \/ List.length entries = 2)%nat) /\
  (forall (B : Backend) q (st : State B) req,
     In (AGenerate req (Text text)) (history (MindGym_think B q st)) ->
     clean (history (MindGym_think B q st)) ->
     result (MindGym_think B q st) = inr tt).
Proof.
  split; [|split; [|split; [|split]]].
  - intros HI HA.
    destruct (parse_round_tagged text HI HA)
      as (before & between & rest & E & Hb & Hm & _ & Ep).
    exists before, between, rest. auto.
  - intros a b -> HIa HAa HAb. now apply parse_round_canonical.
  - intros HI HA. apply parse_round_untagged. now rewrite HI.
  - apply parse_round_total.
  - intros B q st req _ Hc. now apply think_completes.
Qed.

Lemma C8_dialogue_round_parsing_witness :
  parse_round "INTUITIVE: It flows. ANALYTICAL: It has a structure."
  = inr [ mkExchange "intuitive" "It flows.";
          mkExchange "analytical" "It has a structure." ] /\
  parse_round "Both voices fall silent."
  = inr [ mkExchange "dialogue" "Both voices fall silent." ].
Proof.
  split.
  - apply (proj1 (proj2 (C8_dialogue_round_parsing
             "INTUITIVE: It flows. ANALYTICAL: It has a structure."))
             " It flows. " " It has a structure."); reflexivity.
  - apply (proj1 (proj2 (proj2 (C8_dialogue_round_parsing
             "Both voices fall silent.")))); reflexivity.
Defined.

(** ** Failure of a generation call *)

(** C2, as amended: when a generation call fails during a run, the run
    stops there: the failed call is the last thing the run does, the run
    ends with the exception of that call, no [complete] event is yielded,
    and when the failed request is not the synthesis request no event of
    the synthesis phase is yielded either.  No event marks the failure. *)
Theorem C2_generation_failure_aborts (B : Backend) (q : string)
    (st : State B) (req : Request) (reason : string) :
  let o := MindGym_think B q st in
  In (AGenerate req (Failure reason)) (history o) ->
  result o = inl (GenerationError reason) /\
  (exists h, history o = h ++ [AGenerate req (Failure reason)] /\ clean h) /\
  (forall syn el s c r, ~ In (Complete syn el s c r) (events (history o))) /\
  (is_late (AGenerate req (Failure reason)) = false ->
   forall a, In a (history o) -> is_late a = false).
Proof.
  cbv zeta. intros Hin.
  destruct (think_outcome_holds B q st) as (h & Hh & Ho).
  rewrite Hh in *. destruct Hin as [Hin|Hin]; [discriminate|].
  assert (Hreset : forall h', clean h' ->
            clean (AReset SomaticState_default :: h')).
  { intros h' Hc a [<-|Ha]; [reflexivity|auto]. }
  destruct Ho as [h e s Hs | h s req' reason' Hs Hreq | h s gen syn el Hs Hgen].
  - pose proof (steps_early _ _ _ _ Hs) as Hearly.
    apply steps_failure in Hs
      as [[-> Hc] | (h' & req' & reason' & -> & -> & Hc)].
    { specialize (Hc _ Hin). discriminate. }
    apply in_app_or in Hin as [Hin|[[= -> ->]|[]]].
    { specialize (Hc _ Hin). discriminate. }
    split; [reflexivity|]. split; [|split].
    + exists (AReset SomaticState_default :: h'). split; [reflexivity|auto].
    + intros syn el s0 c r Hev. apply in_events in Hev.
      destruct Hev as [Hev|Hev]; [discriminate|].
      specialize (Hearly _ Hev). discriminate.
    + intros _ a [<-|Ha]; [reflexivity|auto].
  - pose proof (steps_early _ _ _ _ Hs) as Hearly.
    pose proof (steps_clean _ _ _ Hs) as Hc.
    apply in_app_or in Hin as [Hin|[Hin|[[= -> ->]|[]]]];
      [specialize (Hc _ Hin); discriminate|discriminate|].
    split; [reflexivity|]. split; [|split].
    + exists (AReset SomaticState_default :: h ++ [AYield (Starting synthesis)]).
      split; [cbn; now rewrite <- app_assoc|].
      apply Hreset. apply clean_app; trivial.
      intros a [<-|[]]. reflexivity.
    + intros syn el s0 c r Hev. apply in_events in Hev.
      destruct Hev as [Hev|Hev]; [discriminate|].
      apply in_app_or in Hev as [Hev|[Hev|[Hev|[]]]]; try discriminate.
      specialize (Hearly _ Hev). discriminate.
    + intros Hlate. exfalso. cbn in Hlate. unfold late_request in Hreq.
      destruct (prompt req); try contradiction. discriminate.
  - exfalso. pose proof (steps_clean _ _ _ Hs) as Hc.
    rewrite !in_app_iff in Hin. cbn in Hin.
    destruct Hin as [Hin|[[Hin|[]]|[Hin|[Hin|[]]]]]; try discriminate.
    + specialize (Hc _ Hin). discriminate.
    + destruct Hgen as [-> | (req' & _ & ->)]; [contradiction|].
      destruct Hin as [Hin|[]]. discriminate.
Qed.

Lemma C2_generation_failure_aborts_witness :
  result failing_run = inl (GenerationError "overloaded").
Proof.
  refine (proj1 (C2_generation_failure_aborts (scripted true)
            "What is happiness?" (scripted_start true failing_script)
            (analytical_request "What is happiness?" ["A"; "A"; "A"]%string
               (stress_level (updates SomaticState_default
                                ["A"; "A"; "A"]%string)))
            "overloaded" _)).
  vm_compute. do 12 right. left. reflexivity.
Defined.

(** C2, as stated, fails: the events the failed run yields are the first
    five events of the completed run, the last of them the marker that
    opens the analytical phase.  What tells the failure is the exception,
    not an event. *)
Lemma C2_no_failure_event :
  events (history failing_run) = firstn 5 (events (history completed_run)) /\
  last (events (history failing_run)) (Starting complete) = Starting analytical /\
  result failing_run = inl (GenerationError "overloaded").
Proof. vm_compute. repeat split. Qed.

(** ** Updates, events and generation inputs *)

(** C3, as amended: in every run, at every position of the history, with
    [s] the state the history before that position replays to: an artifact
    event of phases 1-3 comes right after the [update_from_thought] call on
    its text and shows the state that call produced; a logged update is
    the update of [s]; and the state-dependent inputs of a request (the
    temperature of the analytical request, the stress, coherence and
    tension in the synthesis prompt) are read from [s], which holds every
    update made before the request. *)
Theorem C3_update_precedes_event (B : Backend) (q : string) (st : State B)
    (pre : list Action) (a : Action) (post : list Action) :
  history (MindGym_think B q st) = pre ++ a :: post ->
  let s := replay (somatic st) pre in
  match a with
  | AYield e =>
      forall t, event_text e = Some t ->
        (exists pre', pre = pre' ++ [AUpdate t s]) /\ artifact_event t s e
  | AUpdate t after => after = update_from_thought s t
  | AGenerate req _ =>
      match prompt req with
      | AnalyticalPrompt _ _ => temperature req = analytical_temperature s
      | SynthesisPrompt _ _ _ _ stress coh tens =>
          stress = stress_level s /\ coh = coherence s /\ tens = tension s
      | _ => True
      end
  | AReset _ => True
  end.
Proof.
  intros Hh. cbv zeta.
  pose proof (think_consistent B q st) as Hc. rewrite Hh in Hc.
  apply consistent_at in Hc. destruct a as [s0 | req resp | t after | e];
    trivial.
  - unfold early_request, late_request in Hc.
    destruct (prompt req); tauto.
  - intros t Ht. destruct (Hc t Ht) as [Hlast Hev]. split; trivial.
    apply last_action_snoc in Hlast as [[_ ?]|?]; [discriminate|trivial].
Qed.

Lemma C3_update_precedes_event_witness :
  let h := history completed_run in
  let s := replay SomaticState_default (firstn 6 h) in
  (exists pre', firstn 6 h = pre' ++ [AUpdate "A" s]) /\
  artifact_event "A" s (IntuitiveThought "A" (stress_level s) (coherence s)).
Proof.
  cbv zeta.
  refine (C3_update_precedes_event (scripted true) "What is happiness?"
            (scripted_start true completed_script)
            (firstn 6 (history completed_run))
            (AYield (IntuitiveThought "A"
               (stress_level (replay SomaticState_default
                                (firstn 6 (history completed_run))))
               (coherence (replay SomaticState_default
                             (firstn 6 (history completed_run))))))
            (skipn 7 (history completed_run)) _ "A" eq_refl).
  vm_compute. reflexivity.
Defined.

(** C3, as stated, fails: in the completed run of the scenario the second
    and the third fragment are generated before the update on the first
    one is applied.  [IntuitiveMind.think] returns the whole burst before
    the first update. *)
Lemma C3_next_fragment_generated_before_update :
  updated_before_next false (history completed_run) = false /\
  firstn 6 (history completed_run) =
    [ AReset SomaticState_default;
      AYield (Starting intuitive);
      AGenerate (intuitive_request "What is happiness?" 0 3) (Text "A");
      AGenerate (intuitive_request "What is happiness?" 1 3) (Text "A");
      AGenerate (intuitive_request "What is happiness?" 2 3) (Text "A");
      AUpdate "A" (update_from_thought SomaticState_default "A") ].
Proof. vm_compute. split; reflexivity. Qed.

(** ** Valence *)

(** C9: [update_from_thought] leaves valence as it is, whatever the text
    and the state; and in every run every state the run goes through (the
    state after the reset and after each update) and the final state have
    valence 0. *)
Theorem C9_valence_unchanged :
  (forall s t, valence (update_from_thought s t) = valence s) /\
  (forall (B : Backend) q (st : State B),
     let o := MindGym_think B q st in
     valence (somatic (final o)) = 0 /\
     forall a s, In a (history o) -> logged_state a = Some s ->
                 valence s = 0).
Proof.
  split; [apply update_valence|]. intros B q st. cbv zeta.
  destruct (think_outcome_holds B q st) as (h & -> & Ho).
  assert (Hv : valence SomaticState_default = 0) by reflexivity.
  assert (Hok : forall h' s',
            valence s' = 0 /\
            (forall a s, In a h' -> logged_state a = Some s -> valence s = 0) ->
            forall tl, (forall a, In a tl -> logged_state a = None) ->
            valence s' = 0 /\
            forall a s, In a (AReset SomaticState_default :: h' ++ tl) ->
                        logged_state a = Some s -> valence s = 0).
  { intros h' s' [Hs' Hall] tl Htl. split; trivial.
    intros a s [<-|Ha] Hl.
    - injection Hl as <-. reflexivity.
    - apply in_app_or in Ha as [Ha|Ha]; [eauto|].
      rewrite (Htl a Ha) in Hl. discriminate. }
  destruct Ho as [h e s Hs | h s req reason Hs Hreq | h s gen syn el Hs Hgen];
    pose proof (steps_valence _ _ _ _ Hs Hv) as Hsv.
  - rewrite <- (app_nil_r h). apply (Hok h s Hsv []). intros a [].
  - apply (Hok h s Hsv). intros a [<-|[<-|[]]]; reflexivity.
  - apply (Hok h s Hsv). intros a Ha.
    rewrite !in_app_iff in Ha. cbn in Ha.
    destruct Ha as [[<-|[]]|[Ha|[<-|[]]]]; try reflexivity.
    destruct Hgen as [-> | (req & _ & ->)]; [contradiction|].
    destruct Ha as [<-|[]]. reflexivity.
Qed.

Lemma C9_valence_unchanged_witness :
  valence (update_from_thought SomaticState_default "A") = 0.
Proof.
  refine (proj2 (proj2 C9_valence_unchanged (scripted true)
                   "What is happiness?"
                   (scripted_start true completed_script))
            (AUpdate "A" (update_from_thought SomaticState_default "A"))
            _ _ eq_refl).
  vm_compute. do 5 right. left. reflexivity.
Defined.

(** ** The low-capacity branches *)

(** C10: in every run phase 1 is entered in the default state, whose
    stress level is 0.125, so the burst size is 3; and phase 3 is entered
    after exactly four updates from the default state (three fragments and
    the analysis), with valence 0, coherence at least 0.5 * 0.9^4 and
    arousal at most 1.05, so the stress level is at most 0.7 and the
    number of dialogue rounds is 2.  Accordingly every intuitive request of
    a run announces a burst of 3 and every dialogue request 2 rounds.  (The
    run is the part before phase 3 followed by phases 3 and 4.) *)
Theorem C10_low_capacity_unreachable (B : Backend) (q : string)
    (st : State B) :
  (let s := somatic (final (bind B (now B) (fun _ => reset_somatic B) st)) in
   s = SomaticState_default /\
   stress_level s == 1 # 8 /\ Qltb (stress_level s) (1 # 2) = true /\
   burst_size_of s = 3%nat) /\
  (forall start ts a,
     result (think_until_dialogue B q st) = inr (start, ts, a) ->
     let s := somatic (final (think_until_dialogue B q st)) in
     List.length ts = 3%nat /\
     s = updates SomaticState_default (ts ++ [a]) /\
     valence s = 0 /\
     (1 # 2) * (9 # 10) * (9 # 10) * (9 # 10) * (9 # 10) <= coherence s /\
     arousal s <= 105 # 100 /\
     stress_level s <= 7 # 10 /\
     Qltb (7 # 10) (stress_level s) = false /\
     dialogue_rounds_of s = 2%nat) /\
  (forall req resp,
     In (AGenerate req resp) (history (MindGym_think B q st)) ->
     announces 3 2 req) /\
  (MindGym_think B q st =
   bind B (think_until_dialogue B q) (fun x =>
     let '(start_time, ts, a) := x in
     bind B (think_dialogue_phase B q ts a) (fun dlg =>
       think_synthesis_phase B q ts a dlg start_time)) st).
Proof.
  split; [|split; [|split]].
  - cbv zeta. cbn. repeat split.
  - intros start ts a Hr. cbv zeta.
    destruct (until_dialogue_run B q st start ts a Hr) as [Hlen ->].
    destruct ts as [|t1 [|t2 [|t3 [|? ?]]]]; try discriminate.
    destruct (after_four_updates t1 t2 t3 a) as (Hv & Hc & Ha & Hs & Hd).
    cbv zeta in Hv, Hc, Ha, Hs, Hd. cbn [app].
    split; [reflexivity|]. split; [reflexivity|]. split; [exact Hv|].
    split; [eapply Qle_trans; [|exact Hc]; vm_compute; discriminate|].
    split; [eapply Qle_trans; [exact Ha|]; vm_compute; discriminate|].
    split; [exact Hs|]. split; [now apply Qltb_ge|exact Hd].
  - intros req resp Hin. apply (think_requests B q st req resp).
    now apply in_generations.
  - apply think_from_dialogue.
Qed.

Lemma C10_low_capacity_unreachable_witness :
  dialogue_rounds_of
    (somatic (final (think_until_dialogue (scripted true)
       "What is happiness?"
       (scripted_start true
          [Text "I am confused!"; Text "So uncertain!"; Text "Confused!";
           Text "Uncertain."])))) = 2%nat.
Proof.
  refine (proj2 (proj2 (proj2 (proj2 (proj2 (proj2 (proj2
            (proj1 (proj2 (C10_low_capacity_unreachable (scripted true)
               "What is happiness?" _)) 0
               ["I am confused!"; "So uncertain!"; "Confused!"]%string
               "Uncertain." _)))))))).
  vm_compute. reflexivity.
Defined.
(** * Further properties of the code *)

(** ** The somatic state *)

Lemma inject_nat_succ (n : nat) :
  inject_Z (Z.of_nat (S n)) == inject_Z (Z.of_nat n) + 1.
Proof. rewrite Nat2Z.inj_succ, <- Z.add_1_r, inject_Z_plus. reflexivity. Qed.

Lemma inject_nat_nonneg (n : nat) : 0 <= inject_Z (Z.of_nat n).
Proof.
  change 0 with (inject_Z 0). rewrite <- Zle_Qle. apply Nat2Z.is_nonneg.
Qed.

Lemma inject_nat_le (n k : nat) :
  (n <= k)%nat -> inject_Z (Z.of_nat n) <= inject_Z (Z.of_nat k).
Proof. intros H. rewrite <- Zle_Qle. lia. Qed.

(** Tension after the updates on [ts], from a state whose tension is in
    range. *)
Lemma tension_after_updates (s : SomaticState) (ts : list string) :
  tension s <= 1 ->
  tension (updates s ts)
  == Qmin 1 (tension s + (1 # 50) * inject_Z (Z.of_nat (List.length ts))).
Proof.
  intros Hs. induction ts as [|t ts IH] using rev_ind.
  - change (inject_Z (Z.of_nat (@List.length string []))) with 0.
    change (updates s []) with s.
    destruct (Q.min_spec 1 (tension s + (1 # 50) * 0)) as [[H1 E1] | [H1 E1]];
      rewrite E1; lra.
  - rewrite updates_snoc, update_tension, length_app, Nat.add_comm.
    cbn [List.length Nat.add]. rewrite py_min_Qmin, inject_nat_succ.
    pose proof (inject_nat_nonneg (List.length ts)) as Hn.
    set (n := inject_Z (Z.of_nat (List.length ts))) in *.
    set (x := tension (updates s ts)) in *.
    set (x0 := tension s) in *.
    clearbody n x x0.
    destruct (Q.min_spec 1 (x0 + (1 # 50) * n)) as [[H1 E1] | [H1 E1]];
      rewrite E1 in IH;
      destruct (Q.min_spec 1 (x + (1 # 50))) as [[H2 E2] | [H2 E2]];
      rewrite E2;
      destruct (Q.min_spec 1 (x0 + (1 # 50) * (n + 1))) as [[H3 E3] | [H3 E3]];
      rewrite E3; lra.
Qed.

(** X1: tension counts the thoughts processed: after [n] updates from the
    default state it is [min(1, 0.02 * n)], whatever the texts. *)
Theorem tension_counts_updates (ts : list string) :
  tension (updates SomaticState_default ts)
  == Qmin 1 ((1 # 50) * inject_Z (Z.of_nat (List.length ts))).
Proof.
  rewrite tension_after_updates by (cbn; lra).
  change (tension SomaticState_default) with 0.
  set (n := inject_Z (Z.of_nat (List.length ts))). clearbody n.
  destruct (Q.min_spec 1 (0 + (1 # 50) * n)) as [[H1 E1] | [H1 E1]];
    rewrite E1;
    destruct (Q.min_spec 1 ((1 # 50) * n)) as [[H2 E2] | [H2 E2]];
    rewrite E2; lra.
Qed.

(** X2: fatigue alone calls for rest: after 46 or more thoughts from the
    default state [needs_rest()] is true, whatever the texts. *)
Theorem needs_rest_after_46 (ts : list string) :
  (46 <= List.length ts)%nat ->
  needs_rest (updates SomaticState_default ts) = true.
Proof.
  intros Hlen. unfold needs_rest. apply orb_true_iff. right.
  apply Qltb_lt. rewrite tension_after_updates by (cbn; lra).
  change (tension SomaticState_default) with 0.
  assert (Hn : 46 <= inject_Z (Z.of_nat (List.length ts))).
  { change 46 with (inject_Z 46). rewrite <- Zle_Qle. lia. }
  set (n := inject_Z (Z.of_nat (List.length ts))) in *. clearbody n.
  destruct (Q.min_spec 1 (0 + (1 # 50) * n)) as [[H1 E1] | [H1 E1]];
    rewrite E1; lra.
Qed.

Lemma needs_rest_after_46_witness :
  needs_rest (updates SomaticState_default (repeat "A"%string 46)) = true.
Proof.
  apply needs_rest_after_46. rewrite repeat_length. apply Nat.le_refl.
Defined.

(** X3: a thought with an exclamation mark leaves arousal at most 1, even
    when arousal was above 1 before; a thought that mentions confusion and
    has no exclamation mark raises arousal by exactly 0.1, with no clamp;
    any other thought leaves arousal as it was. *)
Theorem arousal_clamped_by_exclamation_only (s : SomaticState) (t : string) :
  (has_exclamation t = true -> arousal (update_from_thought s t) <= 1) /\
  (has_exclamation t = false -> mentions_confusion t = true ->
   arousal (update_from_thought s t) = arousal s + (1 # 10)) /\
  (has_exclamation t = false -> mentions_confusion t = false ->
   arousal (update_from_thought s t) = arousal s).
Proof.
  unfold update_from_thought.
  destruct (mentions_confusion t), (mentions_clarity t), (has_exclamation t);
    cbn; repeat split; intros; try discriminate; try reflexivity;
    case_min; lra.
Qed.

Lemma arousal_clamped_by_exclamation_only_witness :
  arousal (update_from_thought
             {| arousal := 13 # 10; valence := 0; coherence := 1 # 2;
                tension := 0 |} "Oh!") <= 1.
Proof.
  apply (proj1 (arousal_clamped_by_exclamation_only _ "Oh!")). reflexivity.
Defined.

(** X4: confusion outweighs clarity: a thought that mentions both
    lowers coherence by one percent, as the raise of 10% applies to the
    coherence already lowered by 10%. *)
Theorem confusion_outweighs_clarity (s : SomaticState) (t : string) :
  mentions_confusion t = true -> mentions_clarity t = true ->
  coherence s <= 1 ->
  coherence (update_from_thought s t) == coherence s * (99 # 100).
Proof.
  intros Hconf Hclar Hc. unfold update_from_thought.
  rewrite Hconf, Hclar. destruct (has_exclamation t); cbn; case_min; lra.
Qed.

Lemma confusion_outweighs_clarity_witness :
  coherence (update_from_thought SomaticState_default
               "It is unclear and I am confused")
  == coherence SomaticState_default * (99 # 100).
Proof.
  apply confusion_outweighs_clarity; [reflexivity|reflexivity|].
  vm_compute. discriminate.
Defined.

(** One update raises arousal by at most 0.1, or leaves it at most 1. *)
Lemma update_arousal_cases s t :
  arousal (update_from_thought s t) <= arousal s + (1 # 10) \/
  arousal (update_from_thought s t) <= 1.
Proof.
  unfold update_from_thought.
  destruct (mentions_confusion t), (mentions_clarity t), (has_exclamation t);
    cbn; case_min; first [left; lra | right; lra].
Qed.

(** After [n] updates from the default state arousal is at most
    [0.5 + 0.15 * n] and at most [0.65 + 0.1 * n]. *)
Lemma arousal_after_updates (ts : list string) :
  let n := inject_Z (Z.of_nat (List.length ts)) in
  let a := arousal (updates SomaticState_default ts) in
  a <= (1 # 2) + (3 # 20) * n /\ a <= (13 # 20) + (1 # 10) * n.
Proof.
  cbv zeta. induction ts as [|t ts [IH1 IH2]] using rev_ind.
  - change (inject_Z (Z.of_nat (@List.length string []))) with 0.
    change (arousal (updates SomaticState_default [])) with (1 # 2).
    split; lra.
  - rewrite updates_snoc, length_app, Nat.add_comm.
    cbn [List.length Nat.add]. rewrite inject_nat_succ.
    pose proof (update_arousal_upper (updates SomaticState_default ts) t) as U.
    pose proof (update_arousal_cases (updates SomaticState_default ts) t) as C.
    assert (Hn : inject_Z (Z.of_nat (List.length ts)) <= 2 \/
                 3 <= inject_Z (Z.of_nat (List.length ts))).
    { destruct (le_lt_dec (List.length ts) 2) as [H|H]; [left|right].
      - change 2 with (inject_Z 2). rewrite <- Zle_Qle. lia.
      - change 3 with (inject_Z 3). rewrite <- Zle_Qle. lia. }
    set (n := inject_Z (Z.of_nat (List.length ts))) in *.
    set (a := arousal (updates SomaticState_default ts)) in *.
    set (a' := arousal (update_from_thought (updates SomaticState_default ts) t))
      in *.
    clearbody n a a'. split; [lra|].
    destruct C as [C|C]; [lra|]. destruct Hn as [Hn|Hn]; lra.
Qed.

(** After [n] updates from the default state the stress level is at most
    [0.325 + 0.05 * n]: half the arousal, as valence stays 0. *)
Lemma stress_after_updates (ts : list string) :
  0 <= stress_level (updates SomaticState_default ts) /\
  stress_level (updates SomaticState_default ts)
  <= (13 # 40) + (1 # 20) * inject_Z (Z.of_nat (List.length ts)).
Proof.
  destruct (arousal_after_updates ts) as [_ Ha]. cbv zeta in Ha.
  destruct (kept_bounds_updates SomaticState_default ts kept_bounds_default)
    as (Ha0 & _ & [Hc0 Hc1] & _).
  unfold stress_level. rewrite updates_valence.
  change (valence SomaticState_default) with 0.
  set (n := inject_Z (Z.of_nat (List.length ts))) in *.
  set (a := arousal (updates SomaticState_default ts)) in *.
  set (c := coherence (updates SomaticState_default ts)) in *.
  clearbody n a c. unfold Qdiv. change (/ 2) with (1 # 2).
  assert (a * (1 - c) <= a) by nra.
  assert (0 <= a * (1 - c)) by nra.
  split; lra.
Qed.

(** Up to 9 updates from the default state leave both causes of rest
    below their thresholds. *)
Lemma few_updates_bounds (ts : list string) :
  (List.length ts <= 9)%nat ->
  stress_level (updates SomaticState_default ts) <= 8 # 10 /\
  tension (updates SomaticState_default ts) <= 9 # 10.
Proof.
  intros Hlen.
  assert (Hn : inject_Z (Z.of_nat (List.length ts)) <= 9).
  { change 9 with (inject_Z 9). rewrite <- Zle_Qle. lia. }
  pose proof (inject_nat_nonneg (List.length ts)) as Hn0.
  split.
  - destruct (stress_after_updates ts) as [_ Hs].
    set (n := inject_Z (Z.of_nat (List.length ts))) in *. clearbody n. lra.
  - rewrite tension_after_updates by (cbn; lra).
    change (tension SomaticState_default) with 0.
    set (n := inject_Z (Z.of_nat (List.length ts))) in *. clearbody n.
    destruct (Q.min_spec 1 (0 + (1 # 50) * n)) as [[H1 E1] | [H1 E1]];
      rewrite E1; lra.
Qed.

Lemma no_rest_below_thresholds (s : SomaticState) :
  stress_level s <= 8 # 10 -> tension s <= 9 # 10 -> needs_rest s = false.
Proof.
  intros Hs Ht. unfold needs_rest. apply orb_false_iff.
  split; now apply Qltb_ge.
Qed.

(** X5: a short session never calls for rest: after at most 9 thoughts
    from the default state [needs_rest()] is false, whatever the texts. *)
Theorem no_rest_within_9 (ts : list string) :
  (List.length ts <= 9)%nat ->
  needs_rest (updates SomaticState_default ts) = false.
Proof.
  intros Hlen. destruct (few_updates_bounds ts Hlen).
  now apply no_rest_below_thresholds.
Qed.

Lemma no_rest_within_9_witness :
  needs_rest (updates SomaticState_default
                (repeat "Confused and uncertain"%string 9)) = false.
Proof. apply no_rest_within_9. rewrite repeat_length. apply Nat.le_refl. Defined.

(** ** A round with its tags in the other order *)

Section ParseReversed.
Import PyStr PyStrFacts.
Local Open Scope string_scope.

Lemma contains_suffix sep x y :
  contains sep y = true -> contains sep (x ++ y) = true.
Proof.
  intros H. induction x as [|c x IH]; [exact H|].
  cbn [append contains]. rewrite IH. apply orb_true_r.
Qed.

(** X6: a generated round that opens with the analytical tag and names
    the intuitive one later is not rejected: it gives an intuitive entry
    with an empty text, and an analytical entry with everything after
    the tag, the ["INTUITIVE:"] label and the intuitive text included. *)
Theorem parse_round_analytical_first (b : string) :
  contains "INTUITIVE:" b = true ->
  contains "ANALYTICAL:" b = false ->
  parse_round ("ANALYTICAL:" ++ b)
  = inr [ mkExchange "intuitive" ""; mkExchange "analytical" (strip b) ].
Proof.
  intros HI HA. unfold parse_round.
  rewrite (contains_suffix "INTUITIVE:" "ANALYTICAL:" b HI).
  rewrite (contains_prefix _ _ (prefix_self_append "ANALYTICAL:" b)).
  cbn [andb]. unfold split.
  rewrite split_go_at_sep by discriminate.
  rewrite (split_go_none _ b HA).
  reflexivity.
Qed.

End ParseReversed.

Lemma parse_round_analytical_first_witness :
  parse_round "ANALYTICAL: It has a structure. INTUITIVE: It flows."
  = inr [ mkExchange "intuitive" "";
          mkExchange "analytical" "It has a structure. INTUITIVE: It flows." ].
Proof.
  apply (parse_round_analytical_first " It has a structure. INTUITIVE: It flows.");
    reflexivity.
Defined.
(** ** The runs of the pipeline *)

Ltac run_bind E :=
  match goal with
  | |- context [bind ?B ?m ?f ?st] =>
      let a := fresh "a" in
      destruct (result (m st)) as [?e | a] eqn:E;
      [ rewrite (bind_raises B m f st _ E)
      | rewrite (bind_returns B m f st _ E) ]
  end.

Section MoreRuns.

Variable B : Backend.

Lemma events_app h1 h2 : events (h1 ++ h2) = events h1 ++ events h2.
Proof. unfold events. apply flat_map_app. Qed.

(** A history of generation calls yields no event. *)
Lemma generator_events {A} (m : M B A) st :
  generator B m -> events (history (m st)) = [].
Proof.
  intros Hg. destruct (Hg st) as [_ Hh].
  induction (history (m st)) as [|x h IH]; [reflexivity|].
  pose proof (Hh x (or_introl eq_refl)) as Hx.
  destruct x; try contradiction. cbn. apply IH.
  intros y Hy. apply Hh. now right.
Qed.

(** The events of the loop over the artifacts. *)
Lemma artifact_loop_events {X} (f : X -> string)
    (mk : X -> SomaticState -> Event) (xs : list X) st :
  events (history
    (for_each B xs
       (fun x _ => bind B (somatic_update B (f x)) (fun _ =>
                   bind B (get_somatic B) (fun s => yield B (mk x s))))
       tt st))
  = emitted f mk (somatic st) xs.
Proof.
  revert st. induction xs as [|x xs IH]; intros st; [reflexivity|].
  cbn [for_each emitted].
  rewrite bind_returns with (a := tt) by reflexivity.
  cbn [history]. rewrite events_app.
  match goal with
  | |- context [for_each B xs ?body tt ?st'] => rewrite (IH st')
  end.
  reflexivity.
Qed.

(** What a loop keeps when each pass that returns keeps it. *)
Lemma for_each_invariant {A C} (P : C -> Prop) (xs : list A)
    (body : A -> C -> M B C) :
  (forall x acc st acc', P acc -> result (body x acc st) = inr acc' -> P acc') ->
  forall acc st r,
    P acc -> result (for_each B xs body acc st) = inr r -> P r.
Proof.
  intros Hbody. induction xs as [|x xs IH]; intros acc st r Hacc;
    cbn [for_each].
  - cbn. now intros [= <-].
  - run_bind E; cbn [result]; [discriminate|].
    apply IH. eapply Hbody; eauto.
Qed.

Lemma choice_in options st x :
  result (choice B options st) = inr x -> In x options.
Proof.
  unfold choice. destruct (random_choice B (env st)) as [r env'].
  destruct (nth_error options (r mod List.length options)) eqn:E; cbn;
    [|discriminate].
  intros [= <-]. eapply nth_error_In; eauto.
Qed.

Lemma create_returns req st t :
  result (create B req st) = inr t ->
  history (create B req st) = [AGenerate req (Text t)].
Proof.
  destruct (create_run B req st) as (resp & env' & _ & -> & _ & ->).
  destruct resp; [intros [= ->]; reflexivity | discriminate].
Qed.

Lemma index_last_last {A} (xs : list A) (x d : A) :
  index_last xs = inr x -> last xs d = x.
Proof.
  unfold index_last. destruct (rev xs) as [|y r] eqn:E; [discriminate|].
  intros [= ->]. apply (f_equal (@rev A)) in E. rewrite rev_involutive in E.
  rewrite E. cbn [rev]. apply last_last.
Qed.

(** *** Generation calls, counted *)

Lemma calls_mono {A} n k (m : M B A) :
  (n <= k)%nat -> calls_at_most n m -> calls_at_most k m.
Proof. intros Hle Hm st. specialize (Hm st). lia. Qed.

Lemma calls_silent {A} (m : M B A) :
  (forall st, generations (history (m st)) = []) -> calls_at_most 0 m.
Proof. intros H st. now rewrite H. Qed.

Lemma calls_bind {A C} n1 n2 (m : M B A) (f : A -> M B C) :
  calls_at_most n1 m -> (forall a, calls_at_most n2 (f a)) ->
  calls_at_most (n1 + n2) (bind B m f).
Proof.
  intros Hm Hf st. specialize (Hm st).
  run_bind E; cbn [history]; [lia|].
  rewrite generations_app, length_app.
  specialize (Hf a (final (m st))). lia.
Qed.

Lemma calls_for_each {A C} k (xs : list A) (body : A -> C -> M B C) :
  (forall x acc, calls_at_most k (body x acc)) ->
  forall acc, calls_at_most (List.length xs * k) (for_each B xs body acc).
Proof.
  intros Hbody. induction xs as [|x xs IH]; intros acc; cbn [for_each].
  - intros st. cbn. lia.
  - cbn [List.length Nat.mul]. apply calls_bind; [apply Hbody|apply IH].
Qed.

Lemma calls_ret {A} (a : A) : calls_at_most 0 (ret B a).
Proof. now apply calls_silent. Qed.

Lemma calls_yield e : calls_at_most 0 (yield B e).
Proof. now apply calls_silent. Qed.

Lemma calls_stress_level : calls_at_most 0 (somatic_stress_level B).
Proof. now apply calls_silent. Qed.

Lemma calls_get_somatic : calls_at_most 0 (get_somatic B).
Proof. now apply calls_silent. Qed.

Lemma calls_now : calls_at_most 0 (now B).
Proof. now apply calls_silent. Qed.

Lemma calls_reset : calls_at_most 0 (reset_somatic B).
Proof. now apply calls_silent. Qed.

Lemma calls_lift {A} (r : exn + A) : calls_at_most 0 (lift B r).
Proof. now apply calls_silent. Qed.

Lemma calls_choice options : calls_at_most 0 (choice B options).
Proof.
  apply calls_silent. intros st.
  now destruct (choice_run B options st) as (-> & _).
Qed.

Lemma calls_create req : calls_at_most 1 (create B req).
Proof.
  intros st. destruct (create_run B req st) as (resp & env' & _ & -> & _).
  cbn. lia.
Qed.

Lemma calls_artifact_loop {X} (f : X -> string)
    (mk : X -> SomaticState -> Event) (xs : list X) :
  calls_at_most 0
    (for_each B xs
       (fun x _ => bind B (somatic_update B (f x)) (fun _ =>
                   bind B (get_somatic B) (fun s => yield B (mk x s))))
       tt).
Proof.
  apply calls_silent. intros st.
  now destruct (artifact_loop_run B f mk xs st) as (_ & _ & ->).
Qed.

Lemma calls_IntuitiveMind_think q :
  calls_at_most (if client B then 3 else 0) (IntuitiveMind_think B q).
Proof.
  unfold IntuitiveMind_think.
  destruct (client B).
  - apply (calls_bind 0 3); [apply calls_stress_level|]. intros stress.
    eapply calls_mono; [|apply (calls_for_each 1)].
    + rewrite length_seq. destruct (Qltb stress (1 # 2)); lia.
    + intros i acc. apply (calls_bind 1 0); [apply calls_create|].
      intros. apply calls_ret.
  - apply (calls_bind 0 0); [apply calls_stress_level|]. intros stress.
    eapply calls_mono; [|apply (calls_for_each 0)].
    + lia.
    + intros i acc. apply (calls_bind 0 0); [apply calls_choice|].
      intros. apply calls_ret.
Qed.

Lemma calls_AnalyticalMind_think q ts :
  calls_at_most (if client B then 1 else 0) (AnalyticalMind_think B q ts).
Proof.
  unfold AnalyticalMind_think. destruct (client B).
  - apply (calls_bind 0 1); [apply calls_stress_level|]. intros.
    apply calls_create.
  - apply calls_ret.
Qed.

Lemma calls_converse ts a q rounds :
  calls_at_most (if client B then rounds else 0) (converse B ts a q rounds).
Proof.
  unfold converse. destruct (client B).
  - eapply calls_mono; [|apply (calls_for_each 1)].
    + rewrite length_seq. lia.
    + intros k acc. apply (calls_bind 0 1); [apply calls_lift|]. intros.
      apply (calls_bind 0 1).
      { destruct (k =? 0)%nat; [apply calls_ret|].
        apply (calls_bind 0 0); [apply calls_lift|]. intros. apply calls_ret. }
      intros. apply (calls_bind 1 0); [apply calls_create|]. intros.
      apply (calls_bind 0 0); [apply calls_lift|]. intros. apply calls_ret.
  - eapply calls_mono; [|apply (calls_for_each 0)].
    + lia.
    + intros. apply calls_ret.
Qed.

Lemma calls_synthesize q ts a dlg :
  calls_at_most (if client B then 1 else 0) (synthesize B q ts a dlg).
Proof.
  unfold synthesize. destruct (client B).
  - apply (calls_bind 0 1); [apply calls_get_somatic|]. intros.
    apply calls_create.
  - apply calls_ret.
Qed.

Lemma calls_think q :
  calls_at_most (if client B then 7 else 0) (MindGym_think B q).
Proof.
  pose proof (calls_IntuitiveMind_think q) as H1.
  pose proof (calls_AnalyticalMind_think q) as H2.
  pose proof (fun ts a n => calls_converse ts a q n) as H3.
  pose proof (calls_synthesize q) as H4.
  unfold MindGym_think, think_intuitive_phase, think_analytical_phase,
    think_dialogue_phase, think_synthesis_phase.
  set (c := if client B then 1%nat else 0%nat).
  assert (Hc1 : (if client B then 3 else 0)%nat = (3 * c)%nat)
    by (unfold c; destruct (client B); reflexivity).
  assert (Hc2 : (if client B then 1 else 0)%nat = c) by reflexivity.
  assert (Hc3 : forall n, ((if client B then n else 0) <= n * c)%nat)
    by (intros n; unfold c; destruct (client B); lia).
  assert (Hc7 : (if client B then 7 else 0)%nat
                = (0 + (0 + ((0 + (3 * c + (0 + 0)))
                   + ((0 + (c + (0 + (0 + (0 + 0)))))
                   + ((0 + (0 + (2 * c + (0 + 0))))
                   + (0 + (c + (0 + (0 + 0)))))))))%nat)
    by (unfold c; destruct (client B); reflexivity).
  rewrite Hc1 in H1. rewrite Hc2 in H2, H4. rewrite Hc7. clear Hc7.
  apply calls_bind; [apply calls_now|]. intros start.
  apply calls_bind; [apply calls_reset|]. intros _.
  apply calls_bind.
  { apply calls_bind; [apply calls_yield|]. intros _.
    apply calls_bind; [apply H1|]. intros ts.
    apply calls_bind; [apply calls_artifact_loop|]. intros _.
    apply calls_ret. }
  intros ts. apply calls_bind.
  { apply calls_bind; [apply calls_yield|]. intros _.
    apply calls_bind; [apply H2|]. intros a.
    apply calls_bind; [apply calls_silent; reflexivity|]. intros _.
    apply calls_bind; [apply calls_get_somatic|]. intros s.
    apply calls_bind; [apply calls_yield|]. intros _. apply calls_ret. }
  intros a. apply calls_bind.
  { apply calls_bind; [apply calls_yield|]. intros _.
    apply calls_bind; [apply calls_stress_level|]. intros stress.
    apply calls_bind.
    { eapply calls_mono; [|apply H3].
      destruct (Qltb (7 # 10) stress); unfold c; destruct (client B); lia. }
    intros dlg.
    apply calls_bind; [apply calls_artifact_loop|]. intros _.
    apply calls_ret. }
  intros dlg.
  apply calls_bind; [apply calls_yield|]. intros _.
  apply calls_bind; [apply H4|]. intros syn.
  apply calls_bind; [apply calls_now|]. intros t.
  apply calls_bind; [apply calls_get_somatic|]. intros s.
  apply calls_yield.
Qed.

(** *** What the minds return and call *)

Lemma intuitive_loop_calls q n (l : list nat) :
  client B = true ->
  forall thoughts st ts,
  result (for_each B l
            (fun i thoughts =>
               if client B
               then bind B (create B (intuitive_request q i n))
                           (fun text => ret B (thoughts ++ [text]))
               else bind B (choice B (associations q))
                           (fun text => ret B (thoughts ++ [text])))
            thoughts st) = inr ts ->
  exists new,
    ts = thoughts ++ new /\ List.length new = List.length l /\
    generations (history (for_each B l
            (fun i thoughts =>
               if client B
               then bind B (create B (intuitive_request q i n))
                           (fun text => ret B (thoughts ++ [text]))
               else bind B (choice B (associations q))
                           (fun text => ret B (thoughts ++ [text])))
            thoughts st))
    = combine (map (fun i => intuitive_request q i n) l) (map Text new).
Proof.
  intros Hc. destruct (client B); [clear Hc|discriminate].
  induction l as [|i l IH]; intros thoughts st ts; cbn [for_each].
  - cbn. intros [= <-]. exists []. now rewrite app_nil_r.
  - run_bind E; cbn [result history]; [discriminate|].
    revert E. run_bind E1; cbn [result history ret]; [discriminate|].
    intros [= <-] Hts. destruct (IH _ _ _ Hts) as (new & -> & Hlen & Hg).
    exists (a0 :: new). rewrite <- app_assoc. split; [reflexivity|].
    split; [cbn; now rewrite Hlen|].
    rewrite generations_app, Hg, (create_returns _ _ _ E1), app_nil_r.
    reflexivity.
Qed.

(** With a client, the calls of a burst that returns: one request per
    fragment, numbered in order, each answered with the fragment. *)
Lemma IntuitiveMind_think_calls q st ts :
  client B = true ->
  result (IntuitiveMind_think B q st) = inr ts ->
  generations (history (IntuitiveMind_think B q st))
  = combine (map (fun i => intuitive_request q i (burst_size_of (somatic st)))
                 (seq 0 (burst_size_of (somatic st))))
            (map Text ts).
Proof.
  intros Hc. unfold IntuitiveMind_think.
  rewrite (bind_returns B (somatic_stress_level B) _ st _ eq_refl).
  cbn [result final history somatic_stress_level app].
  fold (burst_size_of (somatic st)). intros Hts.
  destruct (intuitive_loop_calls q (burst_size_of (somatic st))
              (seq 0 (burst_size_of (somatic st))) Hc [] st ts Hts)
    as (new & -> & _ & ->).
  reflexivity.
Qed.

(** Without a client every fragment is one of the four associations. *)
Lemma IntuitiveMind_think_mock q st ts :
  client B = false ->
  result (IntuitiveMind_think B q st) = inr ts ->
  Forall (fun t => In t (associations q)) ts.
Proof.
  intros Hc. unfold IntuitiveMind_think.
  rewrite (bind_returns B (somatic_stress_level B) _ st _ eq_refl).
  cbn [result final history somatic_stress_level app].
  apply for_each_invariant
    with (P := Forall (fun t => In t (associations q))); [|constructor].
  intros x acc st' acc' Hacc. rewrite Hc.
  run_bind E; cbn [result ret]; [discriminate|]. intros [= <-].
  apply Forall_app. split; [exact Hacc|].
  constructor; [|constructor]. eapply choice_in; eauto.
Qed.

(** The analysis: its one request is built from the query, the
    fragments and the stress level at the call. *)
Lemma AnalyticalMind_think_calls q ts st :
  (forall req resp,
     In (req, resp) (generations (history (AnalyticalMind_think B q ts st))) ->
     client B = true /\
     req = analytical_request q ts (stress_level (somatic st))) /\
  (forall a, result (AnalyticalMind_think B q ts st) = inr a ->
     if client B
     then generations (history (AnalyticalMind_think B q ts st))
          = [(analytical_request q ts (stress_level (somatic st)), Text a)]
     else a = mock_analysis q).
Proof.
  unfold AnalyticalMind_think. destruct (client B).
  - rewrite (bind_returns B (somatic_stress_level B) _ st _ eq_refl).
    cbn [result final history somatic_stress_level app].
    split.
    + match goal with
      | |- context [create B ?rq st] =>
          destruct (create_run B rq st) as (p & _ & _ & -> & _)
      end.
      intros req resp [[= <- _]|[]]. auto.
    + intros a Ha. now rewrite (create_returns _ _ _ Ha).
  - split; [intros ? ? []|]. cbn. now intros a [= <-].
Qed.

(** The synthesis: its one request is built from the query, all the
    artifacts and the state at the call. *)
Lemma synthesize_calls q ts a dlg st :
  (forall req resp,
     In (req, resp) (generations (history (synthesize B q ts a dlg st))) ->
     client B = true /\ req = synthesis_request q ts a dlg (somatic st)) /\
  somatic (final (synthesize B q ts a dlg st)) = somatic st /\
  events (history (synthesize B q ts a dlg st)) = [] /\
  (forall syn, result (synthesize B q ts a dlg st) = inr syn ->
     if client B
     then generations (history (synthesize B q ts a dlg st))
          = [(synthesis_request q ts a dlg (somatic st), Text syn)]
     else syn = mock_synthesis q /\
          generations (history (synthesize B q ts a dlg st)) = []).
Proof.
  unfold synthesize. destruct (client B).
  - rewrite (bind_returns B (get_somatic B) _ st _ eq_refl).
    cbn [result final history get_somatic app].
    match goal with
    | |- context [create B ?rq st] =>
        destruct (create_run B rq st) as (p & env' & _ & Hh & Hf & _)
    end.
    split; [|split; [|split]].
    + rewrite Hh. intros req resp [[= <- _]|[]]. auto.
    + now rewrite Hf.
    + now rewrite Hh.
    + intros syn Hs. now rewrite (create_returns _ _ _ Hs).
  - split; [intros ? ? []|]. cbn. repeat split. now injection H.
Qed.

(** *** The entries of a dialogue *)

Lemma parse_round_entries text entries :
  parse_round text = inr entries ->
  (1 <= List.length entries <= 2)%nat /\ Forall known_speaker entries.
Proof.
  intros E.
  destruct (PyStr.contains "INTUITIVE:" text) eqn:HI;
    [destruct (PyStr.contains "ANALYTICAL:" text) eqn:HA|].
  - destruct (parse_round_tagged text HI HA) as (? & ? & ? & _ & _ & _ & _ & E').
    rewrite E' in E. injection E as <-. split; [cbn; lia|].
    repeat (apply Forall_cons; [unfold known_speaker; cbn; auto|]).
    apply Forall_nil.
  - rewrite parse_round_untagged in E by now rewrite HI, HA.
    injection E as <-. split; [cbn; lia|].
    repeat (apply Forall_cons; [unfold known_speaker; cbn; auto|]).
    apply Forall_nil.
  - rewrite parse_round_untagged in E by now rewrite HI.
    injection E as <-. split; [cbn; lia|].
    repeat (apply Forall_cons; [unfold known_speaker; cbn; auto|]).
    apply Forall_nil.
Qed.

(** One generated round that returns: what its request quotes and what
    it adds to the dialogue. *)
Lemma converse_round_calls ts a q rounds k acc st d :
  result
    (bind B (lift B (index_last ts)) (fun intuitive_said =>
     bind B (if (k =? 0)%nat then ret B a
             else bind B (lift B (index_last acc))
                         (fun last => ret B (content last)))
          (fun analytical_said =>
     bind B (create B (dialogue_request q intuitive_said analytical_said
                                        k rounds)) (fun text =>
     bind B (lift B (parse_round text)) (fun entries =>
     ret B (acc ++ entries))))) st) = inr d ->
  exists it said text entries,
    index_last ts = inr it /\
    (if (k =? 0)%nat then said = a
     else exists l, index_last acc = inr l /\ said = content l) /\
    parse_round text = inr entries /\
    d = acc ++ entries /\
    history
      (bind B (lift B (index_last ts)) (fun intuitive_said =>
       bind B (if (k =? 0)%nat then ret B a
               else bind B (lift B (index_last acc))
                           (fun last => ret B (content last)))
            (fun analytical_said =>
       bind B (create B (dialogue_request q intuitive_said analytical_said
                                          k rounds)) (fun text =>
       bind B (lift B (parse_round text)) (fun entries =>
       ret B (acc ++ entries))))) st)
    = [AGenerate (dialogue_request q it said k rounds) (Text text)].
Proof.
  run_bind E1; cbn [result final history lift]; [discriminate|].
  cbn [lift result] in E1.
  destruct (said_before_run B a k acc st) as (Hf & Hh & _).
  cbv zeta in Hf, Hh.
  run_bind E2; cbn [result final history]; [discriminate|].
  rewrite Hf, Hh.
  run_bind E3; cbn [result final history]; [discriminate|].
  run_bind E4; cbn [result final history lift ret]; [discriminate|].
  cbn [lift result] in E4. intros [= <-].
  exists a0, a1, a2, a3. split; [exact E1|]. split.
  { revert E2. destruct (k =? 0)%nat.
    - cbn. now intros [= <-].
    - run_bind E5; cbn [result ret lift]; [discriminate|].
      cbn [lift result] in E5. intros [= <-]. eauto. }
  split; [exact E4|]. split; [reflexivity|].
  rewrite (create_returns _ _ _ E3). reflexivity.
Qed.

(** What one pass of the loop of [converse] adds to the dialogue. *)
Lemma converse_step_entries ts a q rounds k acc st d :
  result
    ((if client B
      then
        bind B (lift B (index_last ts)) (fun intuitive_said =>
        bind B (if (k =? 0)%nat then ret B a
                else bind B (lift B (index_last acc))
                            (fun last => ret B (content last)))
             (fun analytical_said =>
        bind B (create B (dialogue_request q intuitive_said analytical_said
                                           k rounds)) (fun text =>
        bind B (lift B (parse_round text)) (fun entries =>
        ret B (acc ++ entries)))))
      else ret B (acc ++ mock_round q)) st) = inr d ->
  exists entries,
    d = acc ++ entries /\
    (1 <= List.length entries <= 2)%nat /\ Forall known_speaker entries /\
    (client B = false -> entries = mock_round q).
Proof.
  destruct (client B).
  - intros Hd.
    destruct (converse_round_calls ts a q rounds k acc st d Hd)
      as (it & said & text & entries & _ & _ & Ep & -> & _).
    exists entries. destruct (parse_round_entries text entries Ep).
    repeat split; trivial; try lia; try discriminate.
  - cbn. intros [= <-]. exists (mock_round q).
    split; [reflexivity|]. split; [cbn; lia|]. split; [|reflexivity].
    repeat (apply Forall_cons; [unfold known_speaker; cbn; auto|]).
    apply Forall_nil.
Qed.

Lemma converse_loop_entries ts a q rounds n :
  forall k acc st d,
  result (for_each B (seq k n)
    (fun round_num dlg =>
       if client B
       then
         bind B (lift B (index_last ts)) (fun intuitive_said =>
         bind B (if (round_num =? 0)%nat then ret B a
                 else bind B (lift B (index_last dlg))
                             (fun last => ret B (content last)))
              (fun analytical_said =>
         bind B (create B (dialogue_request q intuitive_said analytical_said
                                            round_num rounds)) (fun text =>
         bind B (lift B (parse_round text)) (fun entries =>
         ret B (dlg ++ entries)))))
       else ret B (dlg ++ mock_round q))
    acc st) = inr d ->
  exists added,
    d = acc ++ added /\
    (n <= List.length added <= 2 * n)%nat /\ Forall known_speaker added /\
    (client B = false -> added = List.concat (repeat (mock_round q) n)).
Proof.
  induction n as [|n IH]; intros k acc st d; cbn [seq for_each].
  - cbn. intros [= <-]. exists []. rewrite app_nil_r.
    split; [reflexivity|]. split; [cbn; lia|]. split; [constructor|reflexivity].
  - pose proof (converse_step_entries ts a q rounds k acc st) as Hstep.
    run_bind E; cbn [result]; [discriminate|].
    destruct (Hstep a0 eq_refl) as (entries & -> & Hlen & Hsp & Hmock).
    intros Hd. destruct (IH _ _ _ _ Hd) as (added & -> & Hlen' & Hsp' & Hmock').
    exists (entries ++ added). rewrite app_assoc.
    split; [reflexivity|]. rewrite length_app.
    split; [lia|]. split; [apply Forall_app; auto|].
    intros Hc. rewrite (Hmock Hc), (Hmock' Hc). reflexivity.
Qed.

(** The dialogue a call of [converse] returns has between [rounds] and
    [2 * rounds] entries, each by a known speaker; without a client it
    is the two mock entries, [rounds] times. *)
Lemma converse_entries ts a q rounds st d :
  result (converse B ts a q rounds st) = inr d ->
  (rounds <= List.length d <= 2 * rounds)%nat /\ Forall known_speaker d /\
  (client B = false -> d = List.concat (repeat (mock_round q) rounds)).
Proof.
  unfold converse. intros Hd.
  destruct (converse_loop_entries ts a q rounds rounds 0 [] st d Hd)
    as (added & -> & Hlen & Hsp & Hm). auto.
Qed.

(** With a client, the calls of a dialogue of two rounds that returns:
    both requests quote the last fragment; the first quotes the analysis
    and the second the last entry of the first round. *)
Lemma converse_two_calls ts a q st d :
  client B = true ->
  result (converse B ts a q 2 st) = inr d ->
  exists x1 x2 e1 e2,
    parse_round x1 = inr e1 /\ parse_round x2 = inr e2 /\ d = e1 ++ e2 /\
    generations (history (converse B ts a q 2 st))
    = [ (dialogue_request q (last ts EmptyString) a 0 2, Text x1);
        (dialogue_request q (last ts EmptyString)
           (content (last e1 (mkExchange EmptyString EmptyString))) 1 2,
         Text x2) ].
Proof.
  intros Hc. unfold converse. cbn [seq for_each]. rewrite Hc.
  run_bind E1; cbn [result final history]; [discriminate|].
  run_bind E2; cbn [result final history ret]; [discriminate|].
  intros [= <-].
  destruct (converse_round_calls ts a q 2 0 [] st a0 E1)
    as (it1 & said1 & x1 & e1 & Hit1 & Hs1 & Hp1 & -> & ->).
  destruct (converse_round_calls ts a q 2 1 _ _ a1 E2)
    as (it2 & said2 & x2 & e2 & Hit2 & Hs2 & Hp2 & -> & ->).
  cbn [Nat.eqb] in Hs1, Hs2. destruct Hs2 as (l & Hl & ->). subst said1.
  cbn [app] in Hl.
  exists x1, x2, e1, e2. repeat split; trivial.
  rewrite app_nil_r. cbn [app generations flat_map].
  pose proof (index_last_last _ _ EmptyString Hit1) as <-.
  pose proof (index_last_last _ _ EmptyString Hit2) as <-.
  pose proof (index_last_last _ _ (mkExchange EmptyString EmptyString) Hl)
    as <-.
  reflexivity.
Qed.

(** *** The phases: what they call, return and yield *)

Lemma intuitive_phase_trace q st :
  let o := think_intuitive_phase B q st in
  let o1 := IntuitiveMind_think B q st in
  generations (history o) = generations (history o1) /\
  result o = result o1 /\
  events (history o) =
    Starting intuitive ::
    match result o1 with
    | inl _ => []
    | inr ts =>
        emitted (fun t => t)
                (fun t s => IntuitiveThought t (stress_level s) (coherence s))
                (somatic st) ts
    end.
Proof.
  cbv zeta. unfold think_intuitive_phase.
  match goal with
  | |- context [bind B (yield B ?e) ?f st] =>
      destruct (yield_then B e f st) as (-> & _ & ->)
  end.
  change (events (AYield (Starting intuitive) :: ?h))
    with (Starting intuitive :: events h).
  change (generations (AYield (Starting intuitive) :: ?h))
    with (generations h).
  destruct (generator_IntuitiveMind_think B q st) as [Hsom _].
  pose proof (generator_events (IntuitiveMind_think B q) st
                (generator_IntuitiveMind_think B q)) as Hev.
  run_bind E; cbn [result history].
  { rewrite Hev. auto. }
  destruct (artifact_loop_run B (fun t : string => t)
              (fun t s => IntuitiveThought t (stress_level s) (coherence s))
              a (final (IntuitiveMind_think B q st))) as (Hr & _ & Hg).
  cbv beta zeta in Hr, Hg.
  rewrite (bind_returns B _ _ _ tt Hr). cbn [result history ret].
  rewrite app_nil_r, generations_app, Hg, app_nil_r.
  split; [reflexivity|]. split; [reflexivity|]. f_equal.
  rewrite events_app, Hev. cbn [app].
  rewrite (artifact_loop_events (fun t : string => t)).
  now rewrite Hsom.
Qed.

Lemma analytical_phase_trace q ts st :
  let o := think_analytical_phase B q ts st in
  let o1 := AnalyticalMind_think B q ts st in
  generations (history o) = generations (history o1) /\
  result o = result o1 /\
  events (history o) =
    Starting analytical ::
    match result o1 with
    | inl _ => []
    | inr a =>
        let s := update_from_thought (somatic st) a in
        [AnalyticalThought a (stress_level s) (tension s)]
    end.
Proof.
  cbv zeta. unfold think_analytical_phase.
  match goal with
  | |- context [bind B (yield B ?e) ?f st] =>
      destruct (yield_then B e f st) as (-> & _ & ->)
  end.
  change (events (AYield (Starting analytical) :: ?h))
    with (Starting analytical :: events h).
  change (generations (AYield (Starting analytical) :: ?h))
    with (generations h).
  destruct (generator_AnalyticalMind_think B q ts st) as [Hsom _].
  pose proof (generator_events (AnalyticalMind_think B q ts) st
                (generator_AnalyticalMind_think B q ts)) as Hev.
  run_bind E; cbn [result history].
  { rewrite Hev. auto. }
  rewrite generations_app, events_app, Hev. cbn. rewrite app_nil_r, Hsom.
  auto.
Qed.

Lemma dialogue_phase_trace q ts a st :
  let n := dialogue_rounds_of (somatic st) in
  let o := think_dialogue_phase B q ts a st in
  let o1 := converse B ts a q n st in
  generations (history o) = generations (history o1) /\
  result o = result o1 /\
  events (history o) =
    Starting dialogue ::
    match result o1 with
    | inl _ => []
    | inr d =>
        emitted content
                (fun x s => DialogueThought (speaker x) (content x)
                                            (coherence s))
                (somatic st) d
    end /\
  (forall d, result o1 = inr d ->
     somatic (final o) = updates (somatic st) (map content d)).
Proof.
  cbv zeta. unfold think_dialogue_phase.
  match goal with
  | |- context [bind B (yield B ?e) ?f st] =>
      destruct (yield_then B e f st) as (-> & -> & ->)
  end.
  change (events (AYield (Starting dialogue) :: ?h))
    with (Starting dialogue :: events h).
  change (generations (AYield (Starting dialogue) :: ?h))
    with (generations h).
  rewrite (bind_returns B (somatic_stress_level B) _ st _ eq_refl).
  cbn [result final history somatic_stress_level app].
  fold (dialogue_rounds_of (somatic st)).
  set (n := dialogue_rounds_of (somatic st)).
  destruct (generator_converse B ts a q n st) as [Hsom _].
  pose proof (generator_events (converse B ts a q n) st
                (generator_converse B ts a q n)) as Hev.
  run_bind E; cbn [result final history].
  { rewrite Hev. repeat split. discriminate. }
  destruct (artifact_loop_run B content
              (fun x s => DialogueThought (speaker x) (content x)
                                          (coherence s))
              a0 (final (converse B ts a q n st))) as (Hr & Hf & Hg).
  cbv beta zeta in Hr, Hf, Hg.
  rewrite (bind_returns B _ _ _ tt Hr). cbn [result final history ret].
  rewrite app_nil_r, generations_app, Hg, app_nil_r.
  split; [reflexivity|]. split; [reflexivity|]. split.
  - f_equal. rewrite events_app, Hev. cbn [app].
    rewrite (artifact_loop_events content). now rewrite Hsom.
  - intros d [= <-]. rewrite Hf. cbn [somatic]. now rewrite Hsom.
Qed.

Lemma synthesis_phase_trace q ts a dlg start st :
  let o := think_synthesis_phase B q ts a dlg start st in
  let o1 := synthesize B q ts a dlg st in
  generations (history o) = generations (history o1) /\
  somatic (final o) = somatic st /\
  match result o1 with
  | inl e => result o = inl e /\ events (history o) = [Starting synthesis]
  | inr syn =>
      result o = inr tt /\
      final o = final o1 /\
      events (history o) =
        [Starting synthesis;
         Complete syn (time_time B (env (final o1)) - start)
                  (stress_level (somatic st))
                  (coherence (somatic st)) (needs_rest (somatic st))]
  end.
Proof.
  cbv zeta. unfold think_synthesis_phase.
  match goal with
  | |- context [bind B (yield B ?e) ?f st] =>
      destruct (yield_then B e f st) as (-> & -> & ->)
  end.
  change (events (AYield (Starting synthesis) :: ?h))
    with (Starting synthesis :: events h).
  change (generations (AYield (Starting synthesis) :: ?h))
    with (generations h).
  destruct (synthesize_calls q ts a dlg st) as (_ & Hsom & Hev & _).
  run_bind E; cbn [result final history].
  { rewrite Hev, Hsom. auto. }
  rewrite bind_now. cbn. rewrite generations_app, events_app, Hev, Hsom.
  cbn. rewrite app_nil_r. repeat split.
Qed.

(** *** Phases 1-3 in sequence *)

(** What phases 1-3 hand to phase 4 when they all return. *)
Lemma phases_1_to_3_run q st ts a d :
  result (think_phases_1_to_3 B q (entry B st)) = inr (ts, a, d) ->
  let o := think_phases_1_to_3 B q (entry B st) in
  let s1 := updates SomaticState_default ts in
  let s2 := update_from_thought s1 a in
  List.length ts = 3%nat /\
  (2 <= List.length d <= 4)%nat /\
  Forall known_speaker d /\
  somatic (final o) = updates s2 (map content d) /\
  events (history o) =
    Starting intuitive ::
    emitted (fun t => t)
            (fun t s => IntuitiveThought t (stress_level s) (coherence s))
            SomaticState_default ts ++
    [Starting analytical; AnalyticalThought a (stress_level s2) (tension s2);
     Starting dialogue] ++
    emitted content
            (fun x s => DialogueThought (speaker x) (content x) (coherence s))
            s2 d /\
  (if client B
   then exists x1 x2 e1 e2,
          parse_round x1 = inr e1 /\ parse_round x2 = inr e2 /\
          d = e1 ++ e2 /\
          generations (history o) =
            combine (map (fun i => intuitive_request q i 3) (seq 0 3))
                    (map Text ts) ++
            [ (analytical_request q ts (stress_level s1), Text a);
              (dialogue_request q (last ts EmptyString) a 0 2, Text x1);
              (dialogue_request q (last ts EmptyString)
                 (content (last e1 (mkExchange EmptyString EmptyString)))
                 1 2, Text x2) ]
   else Forall (fun t => In t (associations q)) ts /\
        a = mock_analysis q /\ d = mock_round q ++ mock_round q /\
        generations (history o) = []).
Proof.
  unfold think_phases_1_to_3.
  run_bind E1; cbn [result final history]; [discriminate|].
  run_bind E2; cbn [result final history]; [discriminate|].
  run_bind E3; cbn [result final history]; [discriminate|].
  cbn [ret result final history]. intros [= <- <- <-].
  set (st1 := final (think_intuitive_phase B q (entry B st))) in *.
  set (st2 := final (think_analytical_phase B q a0 st1)) in *.
  destruct (intuitive_phase_run B q (entry B st) a0 E1) as [Hlen Hs1].
  pose proof (analytical_phase_run B q a0 st1 a1 E2) as Hs2.
  cbv zeta in Hs2. fold st1 in Hs1. fold st2 in Hs2.
  change (somatic (entry B st)) with SomaticState_default in Hlen, Hs1.
  change (burst_size_of SomaticState_default) with 3%nat in Hlen.
  rewrite Hs1 in Hs2.
  assert (Hrounds : dialogue_rounds_of (somatic st2) = 2%nat).
  { rewrite Hs2.
    destruct a0 as [|t1 [|t2 [|t3 [|? ?]]]]; try discriminate.
    apply (after_four_updates t1 t2 t3 a1). }
  destruct (intuitive_phase_trace q (entry B st)) as (Hg1 & Hr1 & Hev1).
  destruct (analytical_phase_trace q a0 st1) as (Hg2 & Hr2 & Hev2).
  destruct (dialogue_phase_trace q a0 a1 st2) as (Hg3 & Hr3 & Hev3 & Hs3).
  cbv zeta in Hg1, Hr1, Hev1, Hg2, Hr2, Hev2, Hg3, Hr3, Hev3, Hs3.
  fold st1 in Hg2, Hr2, Hev2. fold st2 in Hg3, Hr3, Hev3, Hs3.
  rewrite Hrounds in Hg3, Hr3, Hev3, Hs3.
  rewrite E1 in Hr1. rewrite E2 in Hr2. rewrite E3 in Hr3.
  rewrite <- Hr1 in Hev1. rewrite <- Hr2 in Hev2. rewrite <- Hr3 in Hev3.
  specialize (Hs3 a2 (eq_sym Hr3)).
  change (somatic (entry B st)) with SomaticState_default in Hev1.
  rewrite Hs1 in Hev2. rewrite Hs2 in Hev3, Hs3.
  destruct (converse_entries a0 a1 q 2 st2 a2 (eq_sym Hr3))
    as (Hlen3 & Hsp & Hm).
  cbv zeta. split; [exact Hlen|]. split; [exact Hlen3|].
  split; [exact Hsp|]. split; [exact Hs3|]. split.
  { rewrite app_nil_r, !events_app, Hev1, Hev2, Hev3. cbn [app].
    rewrite <- ?app_assoc. reflexivity. }
  rewrite app_nil_r, !generations_app, Hg1, Hg2, Hg3.
  destruct (AnalyticalMind_think_calls q a0 st1) as [_ Ha].
  specialize (Ha a1 (eq_sym Hr2)).
  destruct (client B) eqn:Hc.
  - destruct (converse_two_calls a0 a1 q st2 a2 Hc (eq_sym Hr3))
      as (x1 & x2 & e1 & e2 & Hp1 & Hp2 & -> & ->).
    exists x1, x2, e1, e2. repeat split; trivial.
    rewrite (IntuitiveMind_think_calls q (entry B st) a0 Hc (eq_sym Hr1)), Ha.
    change (somatic (entry B st)) with SomaticState_default.
    change (burst_size_of SomaticState_default) with 3%nat.
    rewrite Hs1. reflexivity.
  - split; [exact (IntuitiveMind_think_mock q _ a0 Hc (eq_sym Hr1))|].
    split; [exact Ha|]. split; [exact (Hm eq_refl)|].
    pose proof (calls_IntuitiveMind_think q (entry B st)) as C1.
    pose proof (calls_AnalyticalMind_think q a0 st1) as C2.
    pose proof (calls_converse a0 a1 q 2 st2) as C3.
    rewrite Hc in C1, C2, C3.
    destruct (generations (history (IntuitiveMind_think B q (entry B st))));
      [|cbn in C1; lia].
    destruct (generations (history (AnalyticalMind_think B q a0 st1)));
      [|cbn in C2; lia].
    destruct (generations (history (converse B a0 a1 q 2 st2)));
      [|cbn in C3; lia].
    reflexivity.
Qed.

(** Where phases 1-3 stop when a call fails: the events are those of
    the phases before the failing one, and its marker. *)
Lemma phases_1_to_3_fail q st e :
  result (think_phases_1_to_3 B q (entry B st)) = inl e ->
  exists ph ts a,
    (ph = intuitive \/
     (List.length ts = 3%nat /\ (ph = analytical \/ ph = dialogue))) /\
    events (history (think_phases_1_to_3 B q (entry B st)))
    = failed_events ph ts a [].
Proof.
  unfold think_phases_1_to_3.
  destruct (intuitive_phase_trace q (entry B st)) as (_ & Hr1 & Hev1).
  cbv zeta in Hr1, Hev1.
  run_bind E1; cbn [result final history].
  { intros _. exists intuitive, [], EmptyString. split; [now left|].
    rewrite Hev1, <- Hr1. reflexivity. }
  set (st1 := final (think_intuitive_phase B q (entry B st))) in *.
  destruct (intuitive_phase_run B q (entry B st) a E1) as [Hlen Hs1].
  fold st1 in Hs1.
  change (somatic (entry B st)) with SomaticState_default in Hlen, Hs1, Hev1.
  change (burst_size_of SomaticState_default) with 3%nat in Hlen.
  rewrite <- Hr1 in Hev1.
  destruct (analytical_phase_trace q a st1) as (_ & Hr2 & Hev2).
  cbv zeta in Hr2, Hev2.
  run_bind E2; cbn [result final history].
  { intros _. exists analytical, a, EmptyString. split; [right; auto|].
    rewrite events_app, Hev1, Hev2, <- Hr2. reflexivity. }
  set (st2 := final (think_analytical_phase B q a st1)) in *.
  pose proof (analytical_phase_run B q a st1 a0 E2) as Hs2.
  cbv zeta in Hs2. fold st2 in Hs2. rewrite Hs1 in Hs2.
  rewrite <- Hr2, Hs1 in Hev2.
  destruct (dialogue_phase_trace q a a0 st2) as (_ & Hr3 & Hev3 & _).
  cbv zeta in Hr3, Hev3.
  run_bind E3; cbn [result final history]; [|discriminate].
  intros _. exists dialogue, a, a0. split; [right; auto|].
  rewrite !events_app, Hev1, Hev2, Hev3, <- Hr3.
  unfold failed_events. cbn [app]. rewrite <- ?app_assoc. reflexivity.
Qed.

(** *** The whole run *)

(** A run that completes: phases 1-3 return and the synthesis returns. *)
Lemma think_completed q st :
  result (MindGym_think B q st) = inr tt ->
  exists ts a dlg syn elapsed,
    let o3 := think_phases_1_to_3 B q (entry B st) in
    let o4 := synthesize B q ts a dlg (final o3) in
    let s3 := somatic (final o3) in
    result o3 = inr (ts, a, dlg) /\
    result o4 = inr syn /\
    events (history (MindGym_think B q st)) =
      events (history o3) ++
      [Starting synthesis;
       Complete syn elapsed (stress_level s3) (coherence s3) (needs_rest s3)] /\
    generations (history (MindGym_think B q st)) =
      generations (history o3) ++ generations (history o4) /\
    somatic (final (MindGym_think B q st)) = s3 /\
    elapsed = time_time B (env (final (MindGym_think B q st)))
              - time_time B (env st).
Proof.
  destruct (think_after_reset B q st) as (-> & -> & ->).
  change (events (AReset SomaticState_default :: ?h)) with (events h).
  change (generations (AReset SomaticState_default :: ?h))
    with (generations h).
  run_bind E; cbn [result final history]; [discriminate|].
  destruct a as [[ts a] dlg]. intros Hr.
  destruct (synthesis_phase_trace q ts a dlg (time_time B (env st))
              (final (think_phases_1_to_3 B q (entry B st))))
    as (Hg & Hs & Hcase).
  cbv zeta in Hg, Hs, Hcase.
  destruct (result (synthesize B q ts a dlg
              (final (think_phases_1_to_3 B q (entry B st)))))
    as [e|syn] eqn:Es.
  { destruct Hcase as [Hr' _]. rewrite Hr' in Hr. discriminate. }
  destruct Hcase as (_ & Hf & Hev).
  exists ts, a, dlg, syn,
    (time_time B (env (final (synthesize B q ts a dlg
       (final (think_phases_1_to_3 B q (entry B st))))))
     - time_time B (env st)).
  cbv zeta. split; [exact E|]. split; [exact Es|].
  rewrite events_app, generations_app, Hev, Hg, Hs, Hf. auto.
Qed.

(** A run that raises: phases 1-3 raise, or they return and the
    synthesis call fails. *)
Lemma think_failed q st e :
  result (MindGym_think B q st) = inl e ->
  let o3 := think_phases_1_to_3 B q (entry B st) in
  (result o3 = inl e /\
   events (history (MindGym_think B q st)) = events (history o3)) \/
  (exists ts a dlg,
     result o3 = inr (ts, a, dlg) /\
     events (history (MindGym_think B q st)) =
       events (history o3) ++ [Starting synthesis]).
Proof.
  destruct (think_after_reset B q st) as (-> & _ & ->).
  change (events (AReset SomaticState_default :: ?h)) with (events h).
  run_bind E; cbn [result final history].
  { intros [= ->]. left. auto. }
  destruct a as [[ts a] dlg]. intros Hr. right. exists ts, a, dlg.
  split; [exact E|].
  destruct (synthesis_phase_trace q ts a dlg (time_time B (env st))
              (final (think_phases_1_to_3 B q (entry B st))))
    as (_ & _ & Hcase).
  cbv zeta in Hcase.
  destruct (result (synthesize B q ts a dlg
              (final (think_phases_1_to_3 B q (entry B st)))))
    as [e'|syn].
  - destruct Hcase as [_ Hev]. now rewrite events_app, Hev.
  - destruct Hcase as [Hr' _]. rewrite Hr' in Hr. discriminate.
Qed.

(** The events of the loop over the artifacts, one by one. *)
Lemma in_emitted {X} (f : X -> string) (mk : X -> SomaticState -> Event)
    (xs : list X) :
  forall s e, In e (emitted f mk s xs) ->
  exists pre x post,
    xs = pre ++ x :: post /\ e = mk x (updates s (map f (pre ++ [x]))).
Proof.
  induction xs as [|x xs IH]; intros s e; cbn [emitted]; [intros []|].
  intros [<- | Hin].
  - exists [], x, xs. split; reflexivity.
  - destruct (IH _ _ Hin) as (pre & y & post & -> & ->).
    exists (x :: pre), y, post. split; reflexivity.
Qed.

(** X7: the events of a run that completes: the marker of each phase in
    order, three intuitive thoughts, the analysis, two to four dialogue
    entries by known speakers and the [complete] event, each artifact
    shown with the state updated on it and on everything before it; the
    run ends in the state updated on all of them, and the time it
    reports is that between its first and its last reading of the
    clock. *)
Theorem completed_run_events (q : string) (st : State B) :
  result (MindGym_think B q st) = inr tt ->
  exists ts a dlg syn elapsed,
    List.length ts = 3%nat /\
    (2 <= List.length dlg <= 4)%nat /\
    Forall known_speaker dlg /\
    events (history (MindGym_think B q st))
      = completed_events ts a dlg syn elapsed /\
    somatic (final (MindGym_think B q st))
      = updates SomaticState_default (ts ++ [a] ++ map content dlg) /\
    elapsed = time_time B (env (final (MindGym_think B q st)))
              - time_time B (env st).
Proof.
  intros Hr.
  destruct (think_completed q st Hr)
    as (ts & a & dlg & syn & el & E3 & _ & Hev & _ & Hs & Hel).
  destruct (phases_1_to_3_run q st ts a dlg E3)
    as (Hlen & Hlen3 & Hsp & Hs3 & Hev3 & _).
  cbv zeta in Hs3, Hev3.
  exists ts, a, dlg, syn, el. repeat (split; [assumption|]).
  split; [|split; [|exact Hel]].
  - rewrite Hev, Hev3, Hs3. unfold completed_events. cbn [app].
    rewrite <- ?app_assoc. reflexivity.
  - rewrite Hs, Hs3, !updates_app. reflexivity.
Qed.

(** X8: a run never reports that it needs rest: the [needs_rest] metric
    of every [complete] event is false, whatever the backend answers. *)
Theorem run_never_needs_rest (q : string) (st : State B) syn el stress coh r :
  In (Complete syn el stress coh r) (events (history (MindGym_think B q st))) ->
  r = false.
Proof.
  intros Hin.
  assert (Hearly : forall h,
            In (Complete syn el stress coh r)
               (events (history (think_phases_1_to_3 B q (entry B st)) ++ h)) ->
            In (Complete syn el stress coh r) (events h)).
  { intros h. rewrite events_app, in_app_iff. intros [H|H]; [|exact H].
    exfalso. apply in_events in H.
    pose proof (sound_phases_1_to_3 B q (entry B st)) as Hs.
    pose proof (steps_early _ _ _ _ Hs _ H). discriminate. }
  destruct (result (MindGym_think B q st)) as [e|[]] eqn:Hr.
  - exfalso. destruct (think_failed q st e Hr) as [[_ Hev]|(? & ? & ? & _ & Hev)];
      rewrite Hev in Hin.
    + rewrite <- (app_nil_r (history _)) in Hin. apply Hearly in Hin.
      contradiction.
    + rewrite <- events_app with (h2 := [AYield (Starting synthesis)]) in Hin.
      apply Hearly in Hin. destruct Hin as [|[]]; discriminate.
  - destruct (think_completed q st Hr)
      as (ts & a & dlg & syn' & el' & E3 & _ & Hev & _ & _).
    destruct (phases_1_to_3_run q st ts a dlg E3)
      as (Hlen & [_ Hlen3] & _ & Hs3 & _).
    cbv zeta in Hev, Hs3. rewrite Hev in Hin.
    match type of Hin with
    | In _ (_ ++ [?e1; ?e2]) =>
        rewrite <- events_app with (h2 := [AYield e1; AYield e2]) in Hin
    end.
    apply Hearly in Hin. destruct Hin as [|[Hin|[]]]; [discriminate|].
    injection Hin as _ _ _ _ <-. rewrite Hs3.
    rewrite <- updates_snoc, <- updates_app.
    destruct (few_updates_bounds ((ts ++ [a]) ++ map content dlg)).
    { rewrite !length_app, length_map, Hlen. cbn. lia. }
    now apply no_rest_below_thresholds.
Qed.

(** X9: only a failed generation call makes [MindGym.think] raise: it
    never raises [IndexError], and when it raises, the exception is that
    of the call it made last. *)
Theorem think_raises_generation_errors_only (q : string) (st : State B) e :
  result (MindGym_think B q st) = inl e ->
  exists req reason h,
    e = GenerationError reason /\
    history (MindGym_think B q st) = h ++ [AGenerate req (Failure reason)].
Proof.
  intros Hr. pose proof (in_range_think B q st) as Hrange.
  destruct (think_outcome_holds B q st) as (h & Hh & Ho).
  rewrite Hr in Ho, Hrange. rewrite Hh.
  remember (inl e) as res eqn:Eres.
  destruct Ho as [h e' s Hs | h s req reason Hs Hreq
                 | h s gen syn' el' Hs Hgen]; [| |discriminate].
  - injection Eres as ->.
    apply steps_failure in Hs
      as [[-> _] | (h' & req & reason & -> & -> & _)]; [congruence|].
    exists req, reason, (AReset SomaticState_default :: h'). auto.
  - injection Eres as <-.
    exists req, reason,
      (AReset SomaticState_default :: h ++ [AYield (Starting synthesis)]).
    split; [reflexivity|]. cbn. now rewrite <- app_assoc.
Qed.

(** X10: when a run raises, its events are those of the phases it
    completed and the marker of the phase whose call failed: an intuitive
    thought is yielded only after all three were generated, and a
    dialogue entry only after every round was. *)
Theorem failed_run_events (q : string) (st : State B) e :
  result (MindGym_think B q st) = inl e ->
  exists ph ts a dlg,
    ph <> complete /\
    (ph <> intuitive -> List.length ts = 3%nat) /\
    (ph = synthesis -> (2 <= List.length dlg <= 4)%nat) /\
    events (history (MindGym_think B q st)) = failed_events ph ts a dlg.
Proof.
  intros Hr.
  destruct (think_failed q st e Hr) as [[E3 ->]|(ts & a & dlg & E3 & ->)].
  - destruct (phases_1_to_3_fail q st e E3) as (ph & ts & a & Hph & ->).
    exists ph, ts, a, [].
    destruct Hph as [->|[Hlen [->| ->]]]; repeat split; auto;
      try discriminate; congruence.
  - destruct (phases_1_to_3_run q st ts a dlg E3)
      as (Hlen & Hlen3 & _ & _ & Hev3 & _).
    cbv zeta in Hev3. exists synthesis, ts, a, dlg.
    split; [discriminate|]. split; [auto|]. split; [auto|].
    rewrite Hev3. unfold failed_events. cbn [app].
    rewrite <- ?app_assoc. reflexivity.
Qed.

(** X11: a run makes at most seven generation calls, and none without a
    client; a run with a client that completes made exactly seven. *)
Theorem think_call_budget (q : string) (st : State B) :
  let n := List.length (generations (history (MindGym_think B q st))) in
  (n <= if client B then 7 else 0)%nat /\
  (client B = true -> result (MindGym_think B q st) = inr tt -> n = 7%nat).
Proof.
  cbv zeta. split; [apply calls_think|]. intros Hc Hr.
  destruct (think_completed q st Hr)
    as (ts & a & dlg & syn & el & E3 & E4 & _ & Hg & _).
  destruct (phases_1_to_3_run q st ts a dlg E3)
    as (Hlen & _ & _ & _ & _ & Hcalls).
  destruct (synthesize_calls q ts a dlg
              (final (think_phases_1_to_3 B q (entry B st))))
    as (_ & _ & _ & Hsyn).
  specialize (Hsyn syn E4). cbv zeta in Hg, Hcalls. rewrite Hc in Hcalls, Hsyn.
  destruct Hcalls as (x1 & x2 & e1 & e2 & _ & _ & _ & Hg3).
  rewrite Hg, Hg3, Hsyn, !length_app, length_combine, !length_map, length_seq, Hlen.
  reflexivity.
Qed.

(** X12: without a client a run always completes and calls nothing:
    its fragments are associations on the query and the analysis, the
    four dialogue entries and the synthesis are the fixed mock texts. *)
Theorem mock_run_completes (q : string) (st : State B) :
  client B = false ->
  result (MindGym_think B q st) = inr tt /\
  generations (history (MindGym_think B q st)) = [] /\
  exists ts elapsed,
    List.length ts = 3%nat /\
    Forall (fun t => In t (associations q)) ts /\
    events (history (MindGym_think B q st))
    = completed_events ts (mock_analysis q) (mock_round q ++ mock_round q)
                       (mock_synthesis q) elapsed.
Proof.
  intros Hc.
  assert (Hgen : generations (history (MindGym_think B q st)) = []).
  { pose proof (calls_think q st) as Hn. rewrite Hc in Hn.
    destruct (generations (history (MindGym_think B q st)));
      [reflexivity|cbn in Hn; lia]. }
  assert (Hr : result (MindGym_think B q st) = inr tt).
  { apply think_completes. intros x Hx.
    destruct x as [|req resp| |]; try reflexivity.
    apply in_generations in Hx. rewrite Hgen in Hx. contradiction. }
  split; [exact Hr|]. split; [exact Hgen|].
  destruct (think_completed q st Hr)
    as (ts & a & dlg & syn & el & E3 & E4 & Hev & _ & _).
  destruct (phases_1_to_3_run q st ts a dlg E3)
    as (Hlen & _ & _ & Hs3 & Hev3 & Hmock).
  destruct (synthesize_calls q ts a dlg
              (final (think_phases_1_to_3 B q (entry B st))))
    as (_ & _ & _ & Hsyn).
  specialize (Hsyn syn E4). cbv zeta in Hev, Hs3, Hev3, Hmock.
  rewrite Hc in Hmock, Hsyn.
  destruct Hmock as (Hts & -> & -> & _). destruct Hsyn as [-> _].
  exists ts, el. split; [exact Hlen|]. split; [exact Hts|].
  rewrite Hev, Hev3, Hs3. unfold completed_events. cbn [app].
  rewrite <- ?app_assoc. reflexivity.
Qed.

(** X13: the calls of a run with a client that completes, in order, and
    what each request is built from: three intuitive requests on the
    query alone; the analytical request on the three fragments and the
    stress level after them; two dialogue requests, both quoting the last
    fragment, the first the analysis and the second the last entry parsed
    from the first round; the synthesis request on all of it, in the
    final state.  The events show the texts the calls returned. *)
Theorem completed_run_calls (q : string) (st : State B) :
  client B = true ->
  result (MindGym_think B q st) = inr tt ->
  exists ts a x1 x2 e1 e2 syn elapsed,
    List.length ts = 3%nat /\
    parse_round x1 = inr e1 /\ parse_round x2 = inr e2 /\
    generations (history (MindGym_think B q st))
    = completed_calls q ts a x1 x2 e1 e2 syn /\
    events (history (MindGym_think B q st))
    = completed_events ts a (e1 ++ e2) syn elapsed.
Proof.
  intros Hc Hr.
  destruct (think_completed q st Hr)
    as (ts & a & dlg & syn & el & E3 & E4 & Hev & Hg & _).
  destruct (phases_1_to_3_run q st ts a dlg E3)
    as (Hlen & _ & _ & Hs3 & Hev3 & Hcalls).
  destruct (synthesize_calls q ts a dlg
              (final (think_phases_1_to_3 B q (entry B st))))
    as (_ & _ & _ & Hsyn).
  specialize (Hsyn syn E4). cbv zeta in Hev, Hg, Hs3, Hev3, Hcalls.
  rewrite Hc in Hcalls, Hsyn.
  destruct Hcalls as (x1 & x2 & e1 & e2 & Hp1 & Hp2 & -> & Hg3).
  exists ts, a, x1, x2, e1, e2, syn, el.
  split; [exact Hlen|]. split; [exact Hp1|]. split; [exact Hp2|]. split.
  - rewrite Hg, Hg3, Hsyn, Hs3. unfold completed_calls.
    rewrite <- app_assoc. reflexivity.
  - rewrite Hev, Hev3, Hs3. unfold completed_events. cbn [app].
    rewrite <- ?app_assoc. reflexivity.
Qed.

(** X14: the model, the token limit and the temperature of every request
    of a run are fixed by the kind of its prompt; in particular the
    analytical call always runs at temperature 0.5, as the stress level
    after three fragments never exceeds 0.7. *)
Theorem think_request_parameters (q : string) (st : State B) req resp :
  In (AGenerate req resp) (history (MindGym_think B q st)) ->
  run_parameters req.
Proof.
  rewrite in_generations.
  destruct (think_after_reset B q st) as (_ & _ & ->).
  change (generations (AReset SomaticState_default :: ?h))
    with (generations h).
  unfold think_phases_1_to_3. rewrite bind_assoc.
  destruct (intuitive_phase_trace q (entry B st)) as (Hg1 & _).
  cbv zeta in Hg1.
  assert (H1 : In (req, resp)
                 (generations (history (think_intuitive_phase B q (entry B st)))) ->
               run_parameters req).
  { rewrite Hg1, <- in_generations. intros Hin.
    destruct (IntuitiveMind_think_run B q (entry B st)) as [_ Hh].
    destruct (Hh _ Hin) as (i & p & _ & [= -> _]).
    repeat split. }
  run_bind E1; cbn [history]; [exact H1|].
  rewrite generations_app, in_app_iff. intros [Hin|Hin]; [exact (H1 Hin)|].
  revert Hin. clear H1 Hg1. rewrite bind_assoc.
  set (st1 := final (think_intuitive_phase B q (entry B st))).
  destruct (intuitive_phase_run B q (entry B st) a E1) as [Hlen Hs1].
  fold st1 in Hs1.
  change (somatic (entry B st)) with SomaticState_default in Hlen, Hs1.
  change (burst_size_of SomaticState_default) with 3%nat in Hlen.
  destruct (analytical_phase_trace q a st1) as (Hg2 & _).
  cbv zeta in Hg2.
  assert (H2 : In (req, resp)
                 (generations (history (think_analytical_phase B q a st1))) ->
               run_parameters req).
  { rewrite Hg2. intros Hin.
    destruct (AnalyticalMind_think_calls q a st1) as [Hreq _].
    destruct (Hreq _ _ Hin) as [_ ->].
    unfold run_parameters, analytical_request.
    cbn [prompt model max_tokens temperature].
    split; [reflexivity|]. split; [reflexivity|]. rewrite Hs1.
    destruct (stress_after_updates a) as [_ Hs]. rewrite Hlen in Hs.
    rewrite (proj2 (Qltb_ge _ _)); [reflexivity|].
    eapply Qle_trans; [exact Hs|]. vm_compute. discriminate. }
  run_bind E2; cbn [history]; [exact H2|].
  rewrite generations_app, in_app_iff. intros [Hin|Hin]; [exact (H2 Hin)|].
  revert Hin. clear H2 Hg2. rewrite bind_assoc.
  assert (H3 : forall st2,
             In (req, resp)
                (generations (history (think_dialogue_phase B q a a0 st2))) ->
             run_parameters req).
  { intros st2 Hin.
    destruct (dialogue_phase_run B q a a0 st2) as (Hreq & _).
    destruct (Hreq _ _ Hin) as (s1 & s2 & i & _ & ->). repeat split. }
  run_bind E3; cbn [history]; [apply H3|].
  rewrite generations_app, in_app_iff. intros [Hin|Hin]; [exact (H3 _ Hin)|].
  revert Hin. rewrite bind_ret_l.
  match goal with
  | |- context [think_synthesis_phase B q a a0 a1 ?start ?st3] =>
      destruct (synthesis_phase_trace q a a0 a1 start st3) as (-> & _);
      destruct (synthesize_calls q a a0 a1 st3) as (Hreq & _)
  end.
  intros Hin. destruct (Hreq _ _ Hin) as [_ ->]. repeat split.
Qed.

(** X15: with a client, [converse] raises [IndexError] exactly when it
    is given no fragment to quote and at least one round to play, and
    then it raises before any call; [MindGym.think] never calls it so. *)
Theorem converse_index_error (ts : list string) (a q : string) (rounds : nat)
    (st : State B) :
  client B = true ->
  (result (converse B ts a q rounds st) = inl IndexError
   <-> ts = [] /\ (0 < rounds)%nat) /\
  (ts = [] -> (0 < rounds)%nat ->
   history (converse B ts a q rounds st) = [] /\
   final (converse B ts a q rounds st) = st).
Proof.
  intros Hc.
  assert (Hempty : (0 < rounds)%nat ->
            converse B [] a q rounds st = mkOut (inl IndexError) st []).
  { destruct rounds as [|n]; [lia|]. intros _.
    unfold converse. cbn [seq for_each]. rewrite Hc. reflexivity. }
  split; [split|].
  - intros Hr. destruct ts as [|t ts].
    + split; [reflexivity|]. destruct rounds as [|n]; [|lia].
      discriminate Hr.
    + exfalso. destruct (converse_run B (t :: ts) a q rounds st) as (_ & _ & Hin).
      apply Hin; [discriminate|exact Hr].
  - intros [-> Hpos]. now rewrite Hempty.
  - intros -> Hpos. now rewrite Hempty.
Qed.

(** X16: the synthesis reads the last two entries of the dialogue and
    nothing before them: longer dialogues with the same two last entries
    give the same call and the same result. *)
Theorem synthesize_uses_last_two (q : string) (ts : list string) (a : string)
    (pre : list Exchange) (x y : Exchange) (st : State B) :
  synthesize B q ts a (pre ++ [x; y]) st = synthesize B q ts a [x; y] st.
Proof.
  assert (Hl : last_two (pre ++ [x; y]) = last_two [x; y]).
  { unfold last_two. rewrite length_app. cbn [List.length].
    replace (List.length pre + 2 - 2)%nat with (List.length pre + 0)%nat by lia.
    rewrite skipn_app, Nat.add_0_r, skipn_all.
    replace (List.length pre - List.length pre)%nat with 0%nat by lia.
    reflexivity. }
  unfold synthesize, synthesis_request. now rewrite Hl.
Qed.

(** *** The bars of the command line *)

Lemma bar_cells_bound (x : Q) (n : nat) :
  0 <= x -> x * 10 < inject_Z (Z.of_nat n + 1) -> (bar_cells x <= n)%nat.
Proof.
  intros H0 Hn. unfold bar_cells, py_int.
  assert (H0' : 0 <= x * 10) by nra.
  set (y := x * 10) in *. clearbody y. destruct y as [p d].
  unfold Qle, Qlt in *. cbn [Qnum Qden inject_Z] in *.
  assert (Hp : (0 <= p)%Z) by lia.
  assert (Hq : (Z.quot p (Zpos d) < Z.of_nat n + 1)%Z).
  { apply Z.quot_lt_upper_bound; lia. }
  pose proof (Z.quot_pos p (Zpos d) Hp ltac:(lia)). lia.
Qed.

Lemma short_bar_intuitive (ts : list string) :
  (List.length ts <= 3)%nat ->
  Forall short_bar
    (emitted (fun t => t)
       (fun t s => IntuitiveThought t (stress_level s) (coherence s))
       SomaticState_default ts).
Proof.
  intros Hlen. apply Forall_forall. intros e Hin.
  destruct (in_emitted _ _ _ _ _ Hin) as (pre & x & post & -> & ->).
  rewrite map_id. intros n [= <-]. split; [|discriminate].
  destruct (stress_after_updates (pre ++ [x])) as [H0 Hs].
  apply bar_cells_bound; [exact H0|].
  assert (Hn : inject_Z (Z.of_nat (List.length (pre ++ [x]))) <= 3).
  { change 3 with (inject_Z 3). rewrite <- Zle_Qle.
    rewrite !length_app in *. cbn [List.length] in *. lia. }
  set (k := inject_Z (Z.of_nat (List.length (pre ++ [x])))) in *.
  set (s := stress_level (updates SomaticState_default (pre ++ [x]))) in *.
  clearbody k s. change (inject_Z (Z.of_nat 4 + 1)) with 5. lra.
Qed.

Lemma short_bar_analysis (ts : list string) (a : string) :
  List.length ts = 3%nat ->
  let s2 := update_from_thought (updates SomaticState_default ts) a in
  short_bar (AnalyticalThought a (stress_level s2) (tension s2)).
Proof.
  intros Hlen s2.
  assert (Ht : tension s2 == 2 # 25).
  { unfold s2. rewrite <- updates_snoc.
    rewrite tension_after_updates by (cbn; lra).
    rewrite length_app, Hlen. reflexivity. }
  assert (Hb : (bar_cells (tension s2) <= 0)%nat).
  { clearbody s2. apply bar_cells_bound;
      [|change (inject_Z (Z.of_nat 0 + 1)) with 1]; lra. }
  intros n Hn.
  assert (Hn' : bar_cells (tension s2) = n)
    by (injection Hn; intros H; exact H).
  clear Hn. subst n. split; [lia|].
  intros t stress tens [= _ _ <-]. split; [exact Ht|lia].
Qed.

Lemma short_bar_dialogue (s : SomaticState) (d : list Exchange) :
  Forall short_bar
    (emitted content
       (fun x s => DialogueThought (speaker x) (content x) (coherence s))
       s d).
Proof.
  apply Forall_forall. intros e Hin.
  destruct (in_emitted _ _ _ _ _ Hin) as (pre & x & post & -> & ->).
  intros n. discriminate.
Qed.

Lemma short_bar_none (e : Event) : printed_bar e = None -> short_bar e.
Proof. intros H n. rewrite H. discriminate. Qed.

(** X17: the bars [main] prints: the stress bar under an intuitive
    thought has at most four cells, and the tension bar under the
    analysis is always empty, as tension is 0.08 there. *)
Theorem printed_bars (q : string) (st : State B) (e : Event) (n : nat) :
  In e (events (history (MindGym_think B q st))) ->
  printed_bar e = Some n ->
  (n <= 4)%nat /\
  (forall t stress tens, e = AnalyticalThought t stress tens ->
   tens == 2 # 25 /\ n = 0%nat).
Proof.
  intros Hin. revert n. change (short_bar e). revert e Hin.
  apply Forall_forall.
  assert (Hc : forall ts a dlg syn el, List.length ts = 3%nat ->
                 Forall short_bar (completed_events ts a dlg syn el)).
  { intros ts a dlg syn el Hlen. unfold completed_events.
    apply Forall_cons; [now apply short_bar_none|].
    apply Forall_app. split; [apply short_bar_intuitive; lia|].
    apply Forall_cons; [now apply short_bar_none|].
    apply Forall_cons; [now apply short_bar_analysis|].
    apply Forall_cons; [now apply short_bar_none|].
    apply Forall_app. split; [apply short_bar_dialogue|].
    repeat (apply Forall_cons; [now apply short_bar_none|]).
    apply Forall_nil. }
  destruct (result (MindGym_think B q st)) as [x|[]] eqn:Hr.
  - destruct (think_failed q st x Hr) as [[E3 ->]|(ts & a & dlg & E3 & ->)].
    + destruct (phases_1_to_3_fail q st x E3) as (ph & ts & a & Hph & ->).
      destruct Hph as [->|[Hlen [->| ->]]]; unfold failed_events.
      * repeat (apply Forall_cons; [now apply short_bar_none|]).
        apply Forall_nil.
      * apply Forall_app. split.
        { apply Forall_cons; [now apply short_bar_none|].
          apply short_bar_intuitive; lia. }
        repeat (apply Forall_cons; [now apply short_bar_none|]).
        apply Forall_nil.
      * apply Forall_app. split.
        { apply Forall_cons; [now apply short_bar_none|].
          apply short_bar_intuitive; lia. }
        apply Forall_cons; [now apply short_bar_none|].
        apply Forall_cons; [now apply short_bar_analysis|].
        repeat (apply Forall_cons; [now apply short_bar_none|]).
        apply Forall_nil.
    + destruct (phases_1_to_3_run q st ts a dlg E3)
        as (Hlen & _ & _ & _ & -> & _).
      cbv zeta. rewrite app_comm_cons.
      apply Forall_app. split.
      * apply Forall_cons; [now apply short_bar_none|].
        apply Forall_app. split; [apply short_bar_intuitive; lia|].
        apply Forall_cons; [now apply short_bar_none|].
        apply Forall_cons; [now apply short_bar_analysis|].
        apply Forall_cons; [now apply short_bar_none|].
        apply short_bar_dialogue.
      * repeat (apply Forall_cons; [now apply short_bar_none|]).
        apply Forall_nil.
  - destruct (think_completed q st Hr)
      as (ts & a & dlg & syn & el & E3 & _ & Hev & _ & _).
    destruct (phases_1_to_3_run q st ts a dlg E3)
      as (Hlen & _ & _ & Hs3 & Hev3 & _).
    cbv zeta in Hev, Hs3, Hev3.
    assert (Hce : events (history (MindGym_think B q st))
                  = completed_events ts a dlg syn el).
    { rewrite Hev, Hev3, Hs3. unfold completed_events. cbn [app].
      rewrite <- ?app_assoc. reflexivity. }
    rewrite Hce. now apply Hc.
Qed.

Lemma out_ext {A} (o o' : Out B A) :
  result o = result o' -> final o = final o' -> history o = history o' ->
  o = o'.
Proof. destruct o, o'; cbn. congruence. Qed.

(** X18: a run starts afresh: it does not depend on the somatic state
    the previous run left behind, only on the environment. *)
Theorem run_ignores_previous_state (q : string) (st1 st2 : State B) :
  env st1 = env st2 ->
  MindGym_think B q st1 = MindGym_think B q st2.
Proof.
  intros He.
  destruct (think_after_reset B q st1) as (Hr1 & Hf1 & Hh1).
  destruct (think_after_reset B q st2) as (Hr2 & Hf2 & Hh2).
  cbv zeta in Hr1, Hf1, Hh1, Hr2, Hf2, Hh2.
  assert (Hentry : entry B st1 = entry B st2)
    by (unfold entry; now rewrite He).
  rewrite Hentry in Hr1, Hf1, Hh1.
  set (e1 := env st1) in *. set (st0 := entry B st2) in *.
  clearbody st0. subst e1. rewrite He in Hr1, Hf1, Hh1.
  apply out_ext; congruence.
Qed.

End MoreRuns.

(** ** The runs of the scripted backend as instances *)

Lemma completed_run_events_witness :
  exists ts a dlg syn elapsed,
    events (history completed_run) = completed_events ts a dlg syn elapsed.
Proof.
  assert (Hr : result completed_run = inr tt) by (vm_compute; reflexivity).
  destruct (completed_run_events (scripted true) "What is happiness?"
              (scripted_start true completed_script) Hr)
    as (ts & a & dlg & syn & el & _ & _ & _ & Hev & _).
  exists ts, a, dlg, syn, el. exact Hev.
Defined.

Lemma run_never_needs_rest_witness :
  needs_rest (somatic (final completed_run)) = false.
Proof.
  apply (run_never_needs_rest (scripted true) "What is happiness?"
           (scripted_start true completed_script) "A synthesis." 0
           (stress_level (somatic (final completed_run)))
           (coherence (somatic (final completed_run)))).
  vm_compute. repeat (first [left; reflexivity | right]).
Defined.

Lemma think_raises_generation_errors_only_witness :
  exists req reason h,
    GenerationError "overloaded" = GenerationError reason /\
    history failing_run = h ++ [AGenerate req (Failure reason)].
Proof.
  apply (think_raises_generation_errors_only (scripted true)
           "What is happiness?" (scripted_start true failing_script)).
  vm_compute. reflexivity.
Defined.

Lemma failed_run_events_witness :
  exists ph ts a dlg,
    ph <> complete /\
    (ph <> intuitive -> List.length ts = 3%nat) /\
    (ph = synthesis -> (2 <= List.length dlg <= 4)%nat) /\
    events (history failing_run) = failed_events ph ts a dlg.
Proof.
  apply (failed_run_events (scripted true) "What is happiness?"
           (scripted_start true failing_script)
           (GenerationError "overloaded")).
  vm_compute. reflexivity.
Defined.

Lemma mock_run_completes_witness :
  result (MindGym_think (scripted false) "What is happiness?"
            (scripted_start false [])) = inr tt.
Proof.
  apply (mock_run_completes (scripted false) "What is happiness?"
           (scripted_start false [])).
  reflexivity.
Defined.

Lemma completed_run_calls_witness :
  exists ts a x1 x2 e1 e2 syn,
    generations (history completed_run)
    = completed_calls "What is happiness?" ts a x1 x2 e1 e2 syn.
Proof.
  assert (Hr : result completed_run = inr tt) by (vm_compute; reflexivity).
  destruct (completed_run_calls (scripted true) "What is happiness?"
              (scripted_start true completed_script) eq_refl Hr)
    as (ts & a & x1 & x2 & e1 & e2 & syn & el & _ & _ & _ & Hg & _).
  exists ts, a, x1, x2, e1, e2, syn. exact Hg.
Defined.

Lemma think_request_parameters_witness :
  run_parameters
    (analytical_request "What is happiness?" ["A"; "A"; "A"]%string
       (stress_level (updates SomaticState_default ["A"; "A"; "A"]%string))).
Proof.
  apply (think_request_parameters (scripted true) "What is happiness?"
           (scripted_start true failing_script) _ (Failure "overloaded")).
  vm_compute. repeat (first [left; reflexivity | right]).
Defined.

Lemma converse_index_error_witness :
  result (converse (scripted true) [] "An analysis." "What is happiness?" 2
            (scripted_start true completed_script)) = inl IndexError.
Proof.
  apply (proj2 (proj1 (converse_index_error (scripted true) []
                         "An analysis." "What is happiness?" 2
                         (scripted_start true completed_script) eq_refl))).
  split; [reflexivity|lia].
Defined.

Lemma printed_bars_witness :
  bar_cells (tension (updates SomaticState_default
                        ["A"; "A"; "A"; "An analysis."]%string)) = 0%nat.
Proof.
  refine (proj2 (proj2 (printed_bars (scripted true) "What is happiness?"
            (scripted_start true completed_script)
            (AnalyticalThought "An analysis."
               (stress_level (updates SomaticState_default
                                ["A"; "A"; "A"; "An analysis."]%string))
               (tension (updates SomaticState_default
                           ["A"; "A"; "A"; "An analysis."]%string)))
            _ _ eq_refl) _ _ _ eq_refl)).
  vm_compute. repeat (first [left; reflexivity | right]).
Defined.

Lemma run_ignores_previous_state_witness :
  MindGym_think (scripted true) "What is happiness?"
    (mkState (B := scripted true)
       {| arousal := 1; valence := -1; coherence := 0; tension := 1 |}
       completed_script)
  = MindGym_think (scripted true) "What is happiness?"
      (scripted_start true completed_script).
Proof.
  exact (run_ignores_previous_state (scripted true) "What is happiness?"
           (mkState (B := scripted true)
              {| arousal := 1; valence := -1; coherence := 0; tension := 1 |}
              completed_script)
           (scripted_start true completed_script) eq_refl).
Defined.
